(** * scripts/generate_article.py : identifier extraction, response parsing,
      filename sanitising and the orchestrating [main]

    A shallow embedding of the Python script.  A Python [str] is a sequence
    of Unicode code points; the regular expressions of the script are kept as
    data and run by a backtracking matcher that follows the semantics of the
    [re] module on the constructs the script uses. *)

From Stdlib Require Import String Ascii DecimalString List NArith ZArith Bool
  Lia.
Import ListNotations.

(** ** Python strings *)

Module Py.

Definition char := N.
Definition str := list char.

Definition ch (a : ascii) : char := N_of_ascii a.

(** [str_of "abc"] is the Python literal ['abc']. *)
Definition str_of (s : string) : str := map ch (list_ascii_of_string s).

Definition nl : char := 10%N.

(** [str.isspace] on one code point; [\s] of a [str] pattern, [str.strip()]
    and [str.split()] use the same table. *)
Definition isspace (c : char) : bool :=
  ((9 <=? c) && (c <=? 13) || (28 <=? c) && (c <=? 32)
   || (c =? 133) || (c =? 160) || (c =? 5760)
   || (8192 <=? c) && (c <=? 8202)
   || (c =? 8232) || (c =? 8233) || (c =? 8239) || (c =? 8287)
   || (c =? 12288))%N.

Fixpoint lstrip (s : str) : str :=
  match s with
  | c :: t => if isspace c then lstrip t else s
  | [] => []
  end.

Definition rstrip (s : str) : str := rev (lstrip (rev s)).

(** [s.strip()] *)
Definition strip (s : str) : str := rstrip (lstrip s).

(** [s == ""] *)
Definition is_empty (s : str) : bool :=
  match s with [] => true | _ :: _ => false end.

(** [s.split()]: the maximal runs of non-whitespace, in order.  [cur] is the
    run being read, most recent character first. *)
Fixpoint split_from (cur : str) (s : str) : list str :=
  match s with
  | [] => if is_empty cur then [] else [rev cur]
  | c :: t =>
      if isspace c
      then (if is_empty cur then split_from [] t
            else rev cur :: split_from [] t)
      else split_from (c :: cur) t
  end.

Definition split (s : str) : list str := split_from [] s.

(** [sep.join(parts)] *)
Fixpoint join (sep : str) (parts : list str) : str :=
  match parts with
  | [] => []
  | [p] => p
  | p :: ps => p ++ sep ++ join sep ps
  end.

Fixpoint str_eqb (a b : str) : bool :=
  match a, b with
  | [], [] => true
  | x :: a', y :: b' => (x =? y)%N && str_eqb a' b'
  | _, _ => false
  end.

End Py.

Import Py.

(** ** The fragment of [re] the script uses *)

Module Re.

(** Quantifiers are applied by the script to single-character atoms only
    ([\s*], [.*], [.+?], [\s+], [[...]{11}]), so they carry a character
    class. *)
Inductive regex : Type :=
| Eps
| Class (p : char -> bool)            (* one character of a class / a literal *)
| Cat (r1 r2 : regex)
| Alt (r1 r2 : regex)                 (* r1|r2 *)
| Star (p : char -> bool)             (* p*   greedy *)
| Plus (p : char -> bool)             (* p+   greedy *)
| LazyPlus (p : char -> bool)         (* p+?  *)
| Repeat (n : nat) (p : char -> bool) (* p{n} *)
| Group (r : regex)                   (* the capturing group, group 1 *)
| Bol                                 (* ^ under re.MULTILINE *)
| Eol.                                (* $ under re.MULTILINE *)

(** Matcher state: the character just before the position ([None] at the
    start of the string), the text still to read, the capture of group 1. *)
Record mstate : Type := MState {
  prev : option char;
  rest : str;
  grp : option str
}.

Definition at_bol (st : mstate) : bool :=
  match prev st with None => true | Some c => (c =? nl)%N end.

Definition at_eol (st : mstate) : bool :=
  match rest st with [] => true | c :: _ => (c =? nl)%N end.

Definition orelse {A} (x y : option A) : option A :=
  match x with Some _ => x | None => y end.

Section Loops.
Variable p : char -> bool.
Variable g : option str.
Variable k : mstate -> option mstate.

(** [p*]: as many as possible first, giving back one at a time. *)
Fixpoint star_loop (pv : option char) (s : str) : option mstate :=
  match s with
  | c :: t =>
      if p c then orelse (star_loop (Some c) t) (k (MState pv s g))
      else k (MState pv s g)
  | [] => k (MState pv s g)
  end.

(** [p+?]: as few as possible first (at least one), taking one more at a
    time. *)
Fixpoint lazy_loop (s : str) : option mstate :=
  match s with
  | c :: t =>
      if p c then orelse (k (MState (Some c) t g)) (lazy_loop t)
      else None
  | [] => None
  end.

(** [p{n}] *)
Fixpoint repeat_loop (n : nat) (pv : option char) (s : str) : option mstate :=
  match n with
  | O => k (MState pv s g)
  | S n' =>
      match s with
      | c :: t => if p c then repeat_loop n' (Some c) t else None
      | [] => None
      end
  end.
End Loops.

(** Backtracking matcher in continuation-passing style: [rmatch r st k] runs
    [r] from [st] and hands every way of matching it, in the priority order of
    [re], to [k], until [k] accepts. *)
Fixpoint rmatch (r : regex) (st : mstate) (k : mstate -> option mstate)
  : option mstate :=
  match r with
  | Eps => k st
  | Class p =>
      match rest st with
      | c :: t => if p c then k (MState (Some c) t (grp st)) else None
      | [] => None
      end
  | Cat r1 r2 => rmatch r1 st (fun st1 => rmatch r2 st1 k)
  | Alt r1 r2 => orelse (rmatch r1 st k) (rmatch r2 st k)
  | Star p => star_loop p (grp st) k (prev st) (rest st)
  | Plus p =>
      match rest st with
      | c :: t => if p c then star_loop p (grp st) k (Some c) t else None
      | [] => None
      end
  | LazyPlus p => lazy_loop p (grp st) k (rest st)
  | Repeat n p => repeat_loop p (grp st) k n (prev st) (rest st)
  | Group r1 =>
      rmatch r1 st (fun st1 =>
        k (MState (prev st1) (rest st1)
             (Some (firstn (length (rest st) - length (rest st1)) (rest st)))))
  | Bol => if at_bol st then k st else None
  | Eol => if at_eol st then k st else None
  end.

(** A match object: where it starts, the text after it, group 1. *)
Record rmatch_obj : Type := Match {
  m_start : nat;
  m_after : str;
  m_group1 : option str
}.

(** [pattern.match] at one position. *)
Definition match_at (r : regex) (pv : option char) (s : str) : option mstate :=
  rmatch r (MState pv s None) Some.

(** [re.search(r, s)]: the first position, left to right, with a match. *)
Fixpoint search_from (r : regex) (i : nat) (pv : option char) (s : str)
  : option rmatch_obj :=
  match match_at r pv s with
  | Some st => Some (Match i (rest st) (grp st))
  | None =>
      match s with
      | c :: t => search_from r (S i) (Some c) t
      | [] => None
      end
  end.

Definition search (r : regex) (s : str) : option rmatch_obj :=
  search_from r 0 None s.

(** [re.sub(r, repl, s)] for a plain replacement text: every non-overlapping
    match, left to right, is replaced.  [skip] counts the characters of the
    current match still to drop. *)
Fixpoint sub_from (r : regex) (repl : str) (skip : nat) (pv : option char)
  (s : str) : str :=
  match s with
  | [] =>
      match skip, match_at r pv [] with
      | O, Some _ => repl
      | _, _ => []
      end
  | c :: t =>
      match skip with
      | S n => sub_from r repl n (Some c) t
      | O =>
          match match_at r pv s with
          | Some st =>
              match length s - length (rest st) with
              | O => repl ++ c :: sub_from r repl 0 (Some c) t
              | S n => repl ++ sub_from r repl n (Some c) t
              end
          | None => c :: sub_from r repl 0 (Some c) t
          end
      end
  end.

Definition sub (r : regex) (repl : str) (s : str) : str :=
  sub_from r repl 0 None s.

(** A literal text. *)
Fixpoint lit (s : str) : regex :=
  match s with
  | [] => Eps
  | c :: t => Cat (Class (N.eqb c)) (lit t)
  end.

(** [.] without and with re.DOTALL. *)
Definition dot (c : char) : bool := negb (c =? nl)%N.
Definition dot_all (c : char) : bool := true.

End Re.

Import Re.

(** ** get_video_id *)

(** What a Python call does: return a value or raise [ValueError]. *)
Inductive pyresult (A : Type) : Type :=
| Return (v : A)
| RaiseValueError (msg : str).
Arguments Return {A} v.
Arguments RaiseValueError {A} msg.

(** [[0-9A-Za-z_-]] *)
Definition idchar (c : char) : bool :=
  ((48 <=? c) && (c <=? 57) || (65 <=? c) && (c <=? 90)
   || (97 <=? c) && (c <=? 122) || (c =? 95) || (c =? 45))%N.

(** [r'(?:v=|\/)([0-9A-Za-z_-]{11}).*'] *)
Definition pattern_watch : regex :=
  Cat (Alt (lit (str_of "v=")) (lit (str_of "/")))
      (Cat (Group (Repeat 11 idchar)) (Star dot)).

(** [r'(?:embed\/)([0-9A-Za-z_-]{11})'] *)
Definition pattern_embed : regex :=
  Cat (lit (str_of "embed/")) (Group (Repeat 11 idchar)).

(** [r'(?:youtu\.be\/)([0-9A-Za-z_-]{11})'] *)
Definition pattern_short : regex :=
  Cat (lit (str_of "youtu.be/")) (Group (Repeat 11 idchar)).

Definition patterns : list regex :=
  [pattern_watch; pattern_embed; pattern_short].

(** The [for pattern in patterns] loop: [Some g] when it returns
    [match.group(1)], [None] when it falls through. *)
Fixpoint first_pattern (ps : list regex) (url : str) : option (option str) :=
  match ps with
  | [] => None
  | p :: ps' =>
      match search p url with
      | Some m => Some (m_group1 m)
      | None => first_pattern ps' url
      end
  end.

(** [f"Could not extract video ID from: {url}"] *)
Definition could_not_extract (url : str) : str :=
  str_of "Could not extract video ID from: " ++ url.

(** The return value is [None] (Python's) or a string. *)
Definition get_video_id (url : str) : pyresult (option str) :=
  if is_empty url || is_empty (strip url) then Return None
  else
    match first_pattern patterns url with
    | Some g => Return g
    | None =>
        if (length (strip url) =? 11)%nat then Return (Some (strip url))
        else RaiseValueError (could_not_extract url)
    end.

(** ** parse_article_response *)

(** [r'^TITLE:\s*(.+?)$'] with re.MULTILINE *)
Definition title_re : regex :=
  Cat Bol (Cat (lit (str_of "TITLE:"))
    (Cat (Star isspace) (Cat (Group (LazyPlus dot)) Eol))).

(** [r'^TITLE:\s*.+?$'] with re.MULTILINE, the pattern of the [re.sub] *)
Definition title_line_re : regex :=
  Cat Bol (Cat (lit (str_of "TITLE:"))
    (Cat (Star isspace) (Cat (LazyPlus dot) Eol))).

(** [r'HASHTAGS:\s*(.+?)$'] with re.MULTILINE | re.DOTALL *)
Definition hashtags_re : regex :=
  Cat (lit (str_of "HASHTAGS:"))
    (Cat (Star isspace) (Cat (Group (LazyPlus dot_all)) Eol)).

(** [r'HASHTAGS:\s*.+?$'] with re.MULTILINE | re.DOTALL, the pattern of the
    [re.sub] *)
Definition hashtags_line_re : regex :=
  Cat (lit (str_of "HASHTAGS:"))
    (Cat (Star isspace) (Cat (LazyPlus dot_all) Eol)).

(** [datetime.now()], read from the clock by the caller. *)
Record datetime : Type := DateTime {
  year : N; month : N; day : N; hour : N; minute : N; second : N
}.

(** A clock reading for the examples: 2024-03-07 09:05:01. *)
Definition sample_now : datetime := DateTime 2024 3 7 9 5 1.

Definition digit (n : N) : char := (48 + n mod 10)%N.

(** The last [w] decimal digits of [n], zero-padded. *)
Fixpoint zpad (w : nat) (n : N) : str :=
  match w with
  | O => []
  | S w' => zpad w' (n / 10) ++ [digit n]
  end.

(** [now.strftime('%Y%m%d_%H%M%S')], for a year of four digits. *)
Definition strftime (now : datetime) : str :=
  zpad 4 (year now) ++ zpad 2 (month now) ++ zpad 2 (day now)
  ++ str_of "_"
  ++ zpad 2 (hour now) ++ zpad 2 (minute now) ++ zpad 2 (second now).

(** [match.group(1)]; the group of these patterns always takes part. *)
Definition group1 (m : rmatch_obj) : str :=
  match m_group1 m with Some g => g | None => [] end.

(** [not title]: [None] or the empty string. *)
Definition falsy (t : option str) : bool :=
  match t with None => true | Some s => is_empty s end.

Definition parse_article_response (now : datetime) (response : str)
  : str * str * list str :=
  let title : option str := None in
  let content := response in
  let hashtags : list str := [] in
  let title_match := search title_re response in
  let '(title, content) :=
    match title_match with
    | Some m => (Some (strip (group1 m)), strip (sub title_line_re [] content))
    | None => (title, content)
    end in
  let hashtags_match := search hashtags_re response in
  let '(hashtags, content) :=
    match hashtags_match with
    | Some m =>
        let hashtags_text := strip (group1 m) in
        (map strip
           (filter (fun tag => negb (is_empty (strip tag)))
                   (split hashtags_text)),
         strip (sub hashtags_line_re [] content))
    | None => (hashtags, content)
    end in
  let title :=
    if falsy title then str_of "Article_" ++ strftime now
    else match title with Some t => t | None => [] end in
  (title, content, hashtags).

(** ** sanitize_filename *)

(** The character class of the first [re.sub]: less-than, greater-than,
    colon, double quote, slash, backslash, bar, question mark, star. *)
Definition invalid_char (c : char) : bool :=
  ((c =? 60) || (c =? 62) || (c =? 58) || (c =? 34) || (c =? 47)
   || (c =? 92) || (c =? 124) || (c =? 63) || (c =? 42))%N.

Definition invalid_re : regex := Class invalid_char.

(** [r'\s+'] *)
Definition spaces_re : regex := Plus isspace.

Definition is_empty_list {A} (l : list A) : bool :=
  match l with [] => true | _ :: _ => false end.

Definition sanitize_filename (title : str) : str :=
  let filename := sub invalid_re [] title in
  let filename := sub spaces_re (str_of "_") filename in
  if (100 <? length filename)%nat then firstn 100 filename else filename.

(** ** main and its collaborators *)

Module Script.

(** What the script does to the outside, in order, each with what came back
    ([None], [false]: the call raised).  Console output is not recorded. *)
Inductive event : Type :=
| FetchTranscript (video_id : option str) (languages : option (list str))
    (snippets : option (list str))
| Sleep (seconds : Z) (slept : bool)
| ReadCredential (value : option str)
| GenerateRequest (api_key : str) (transcripts : list str)
    (context_message output_size : str) (enable_research : bool)
    (chunks : option (list (option str)))
| WriteArticle (path content : str) (written : bool).

Definition is_fetch (e : event) : bool :=
  match e with FetchTranscript _ _ _ => true | _ => false end.

Definition is_generate (e : event) : bool :=
  match e with GenerateRequest _ _ _ _ _ _ => true | _ => false end.

Definition is_write (e : event) : bool :=
  match e with WriteArticle _ _ _ => true | _ => false end.


Definition fetch_succeeded (e : event) : bool :=
  match e with FetchTranscript _ _ (Some _) => true | _ => false end.

(** [generate_article] raised: the credential was missing or empty, or the
    generation service failed. *)
Definition generation_failed (e : event) : bool :=
  match e with
  | ReadCredential k => falsy k
  | GenerateRequest _ _ _ _ _ None => true
  | _ => false
  end.

Definition write_failed (e : event) : bool :=
  match e with WriteArticle _ _ false => true | _ => false end.

(** The events of the download loop. *)
Definition is_download (e : event) : bool :=
  match e with FetchTranscript _ _ _ | Sleep _ _ => true | _ => false end.

(** The command line as argparse receives it, for the options that carry a
    value; [-h] and [--help], on which argparse prints the help and exits
    with status 0 before [main] does anything, are not part of it. *)
Record cmdline : Type := CmdLine {
  opt_url_1 : option str;        (* --url-1, required: None when not given *)
  opt_more_urls : list str;      (* --url-2 .. --url-10, '' when not given *)
  opt_context : str;
  opt_output_size : str;
  opt_enable_research : bool;    (* after type=lambda x: x.lower() == 'true' *)
  opt_delay : Z                  (* after type=int *)
}.

(** [args] after [parser.parse_args()]. *)
Record namespace : Type := Namespace {
  arg_urls : list str;           (* args.url_1 .. args.url_10 *)
  arg_context : str;
  arg_output_size : str;
  arg_enable_research : bool;
  arg_delay : Z
}.

Definition size_choices : list str :=
  [str_of "SHORT"; str_of "MEDIUM"; str_of "LONG"].

(** [parser.parse_args()]: [None] when argparse rejects the command line
    (a required option is missing, a value is not among the choices); it then
    prints the usage and exits with status 2. *)
Definition parse_args (c : cmdline) : option namespace :=
  match opt_url_1 c with
  | None => None
  | Some u1 =>
      if existsb (str_eqb (opt_output_size c)) size_choices
      then Some (Namespace (u1 :: opt_more_urls c) (opt_context c)
                   (opt_output_size c) (opt_enable_research c) (opt_delay c))
      else None
  end.

Section WithWorld.

(** The state of everything outside the process. *)
Variable World : Type.

(** The collaborators.  [None] stands for a raised exception. *)
Record services : Type := Services {
  (* YouTubeTranscriptApi().fetch(video_id[, languages]): the snippets *)
  yt_fetch : World -> option str -> option (list str)
             -> option (list str) * World;
  (* time.sleep(delay); false: it raised (OverflowError for a delay beyond
     the range of the clock, OSError) *)
  os_sleep : World -> Z -> bool * World;
  (* os.environ.get("GEMINI_API_KEY") *)
  getenv_key : World -> option str;
  (* genai.Client(api_key).models.generate_content_stream(...): chunk.text
     of every chunk *)
  genai_stream : World -> str -> list str -> str -> str -> bool
                 -> option (list (option str)) * World;
  (* datetime.now() *)
  clock : World -> datetime;
  (* articles/ is created and the file written; false: OSError *)
  fs_write : World -> str -> str -> bool * World
}.

Variable sv : services.

(** State of a run: the world and the events so far, oldest first. *)
Definition prog (A : Type) : Type :=
  World * list event -> A * (World * list event).

Definition ret {A} (a : A) : prog A := fun s => (a, s).

Definition bind {A B} (m : prog A) (f : A -> prog B) : prog B :=
  fun s => let '(a, s') := m s in f a s'.

Definition emit (e : event) : prog unit :=
  fun s => (tt, (fst s, snd s ++ [e])).

Definition call {A} (f : World -> A * World) : prog A :=
  fun s => let '(a, w') := f (fst s) in (a, (w', snd s)).

Definition look {A} (f : World -> A) : prog A :=
  fun s => (f (fst s), s).

Notation "x <- m ;; k" := (bind m (fun x => k))
  (at level 61, m at next level, right associativity).
Notation "m ;;; k" := (bind m (fun _ => k))
  (at level 61, right associativity).

Definition english : list str :=
  [str_of "en"; str_of "en-US"; str_of "en-GB"].

(** [[url for url in urls if url and url.strip()]] *)
Definition usable_urls (urls : list str) : list str :=
  filter (fun url => negb (is_empty url) && negb (is_empty (strip url))) urls.

Definition fetch (video_id : option str) (languages : option (list str))
  : prog (option (list str)) :=
  snippets <- call (fun w => yt_fetch sv w video_id languages) ;;
  emit (FetchTranscript video_id languages snippets) ;;;
  ret snippets.

(** [time.sleep(delay)]; [false]: it raised. *)
Definition sleep (delay : Z) : prog bool :=
  slept <- call (fun w => os_sleep sv w delay) ;;
  emit (Sleep delay slept) ;;;
  ret slept.

(** [None]: an exception propagates to the caller, that of the second fetch
    or that of [time.sleep]; the text of a transcript already fetched is then
    lost with it. *)
Definition download_transcript (video_id : option str) (delay : Z)
  : prog (option str) :=
  first <- fetch video_id (Some english) ;;
  fetched <- match first with
             | Some t => ret (Some t)
             | None => fetch video_id None
             end ;;
  match fetched with
  | None => ret None
  | Some fetched_transcript =>
      let transcript_text := join (str_of " ") fetched_transcript in
      slept <- (if (0 <? delay)%Z then sleep delay else ret true) ;;
      if slept then ret (Some transcript_text) else ret None
  end.

(** The [for i, url in enumerate(urls, 1)] loop of [main], from index [i];
    [n] is [len(urls)].  A raised exception skips the URL.  Returns
    [transcripts]; [video_ids] is never read and is left out. *)
Fixpoint download_all (delay : Z) (n i : nat) (urls : list str)
  (transcripts : list str) : prog (list str) :=
  match urls with
  | [] => ret transcripts
  | url :: more =>
      match get_video_id url with
      | RaiseValueError _ => download_all delay n (S i) more transcripts
      | Return video_id =>
          t <- download_transcript video_id
                 (if (i <? n)%nat then delay else 0%Z) ;;
          match t with
          | None => download_all delay n (S i) more transcripts
          | Some transcript =>
              download_all delay n (S i) more (transcripts ++ [transcript])
          end
      end
  end.

(** [for chunk in stream: if chunk.text: full_response += chunk.text] *)
Definition concat_chunks (chunks : list (option str)) : str :=
  fold_left (fun full_response c =>
               match c with
               | Some t => full_response ++ t
               | None => full_response
               end) chunks [].

(** [None]: an exception (the [ValueError] of the missing key, or one of
    the generation service).  The prompt pair of [build_prompt] is a function
    of the arguments recorded in the request. *)
Definition generate_article (transcripts : list str)
  (context_message output_size : str) (enable_research : bool)
  : prog (option str) :=
  api_key <- look (getenv_key sv) ;;
  emit (ReadCredential api_key) ;;;
  if falsy api_key then ret None
  else
    let key := match api_key with Some k => k | None => [] end in
    chunks <- call (fun w => genai_stream sv w key transcripts
                               context_message output_size enable_research) ;;
    emit (GenerateRequest key transcripts context_message output_size
            enable_research chunks) ;;;
    match chunks with
    | None => ret None
    | Some cs => ret (Some (concat_chunks cs))
    end.

Definition article_text (title content : str) (hashtags : list str) : str :=
  (str_of "# " ++ title ++ [nl; nl]) ++ content
  ++ (if is_empty_list hashtags then []
      else [nl; nl] ++ str_of "---" ++ [nl; nl] ++ str_of "**Hashtags:** "
           ++ join (str_of " ") hashtags ++ [nl]).

(** [main()]; the value is the exit status of the process. *)
Definition main (c : cmdline) : prog Z :=
  match parse_args c with
  | None => ret 2%Z
  | Some args =>
      let urls := usable_urls (arg_urls args) in
      if is_empty_list urls then ret 1%Z
      else
        transcripts <- download_all (arg_delay args) (length urls) 1 urls [] ;;
        if is_empty_list transcripts then ret 1%Z
        else
          response <- generate_article transcripts (arg_context args)
                        (arg_output_size args) (arg_enable_research args) ;;
          match response with
          | None => ret 1%Z
          | Some response =>
              now <- look (clock sv) ;;
              let '(title, content, hashtags) :=
                parse_article_response now response in
              let filename := sanitize_filename title in
              let filepath := str_of "articles/" ++ filename ++ str_of ".md" in
              ok <- call (fun w => fs_write sv w filepath
                                     (article_text title content hashtags)) ;;
              emit (WriteArticle filepath
                      (article_text title content hashtags) ok) ;;;
              (* an OSError is not caught: traceback, exit status 1 *)
              if ok then ret 0%Z else ret 1%Z
          end
  end.

Definition run (c : cmdline) (w : World) : Z * list event :=
  let '(code, (_, trace)) := main c (w, []) in (code, trace).

End WithWorld.

Arguments yt_fetch {World}.
Arguments os_sleep {World}.
Arguments getenv_key {World}.
Arguments genai_stream {World}.
Arguments clock {World}.
Arguments fs_write {World}.
Arguments ret {World A}.
Arguments bind {World A B}.
Arguments emit {World}.
Arguments call {World A}.
Arguments look {World A}.
Arguments fetch {World}.
Arguments sleep {World}.
Arguments download_transcript {World}.
Arguments download_all {World}.
Arguments generate_article {World}.
Arguments main {World}.
Arguments run {World}.

(** A world for the examples: nothing changes; every transcript has the two
    snippets [hello] and [world], every sleep comes to its end, the
    credential is [key], the generation service answers in the two chunks
    given, the file can be written when [disk] says so. *)
Definition sample_services (key : option str) (answer : option (list (option str)))
  (disk : bool) : services unit :=
  Services unit
    (fun w _ _ => (Some [str_of "hello"; str_of "world"], w))
    (fun w _ => (true, w))
    (fun _ => key)
    (fun w _ _ _ _ _ => (answer, w))
    (fun _ => sample_now)
    (fun w _ _ => (disk, w)).

(** The same world with a transcript service that knows the video
    [dQw4w9WgXcQ] only, and a [time.sleep] that raises [OverflowError] when
    the delay in nanoseconds does not fit in 64 bits. *)
Definition overflow_services (key : option str)
  (answer : option (list (option str))) (disk : bool) : services unit :=
  Services unit
    (fun w video_id _ =>
       (match video_id with
        | Some id =>
            if str_eqb id (str_of "dQw4w9WgXcQ")
            then Some [str_of "hello"; str_of "world"] else None
        | None => None
        end, w))
    (fun w delay => ((delay * 1000000000 <? 2 ^ 63)%Z, w))
    (fun _ => key)
    (fun w _ _ _ _ _ => (answer, w))
    (fun _ => sample_now)
    (fun w _ _ => (disk, w)).

Definition sample_cmdline (url_1 : option str) : cmdline :=
  CmdLine url_1 [[]; []; []; []; []; []; []; []; []] [] (str_of "MEDIUM")
    true 15.

End Script.

(** ** Direct readings of the patterns

    Plain list functions that say what each regular expression of the script
    accepts; the lemmas below prove that the matcher computes them. *)

Module Direct.

(** The rest of [s] after the literal [p], when [s] starts with [p]. *)
Fixpoint strip_prefix (p s : str) : option str :=
  match p with
  | [] => Some s
  | c :: p' =>
      match s with
      | d :: s' => if (c =? d)%N then strip_prefix p' s' else None
      | [] => None
      end
  end.

(** [s.find(needle)], counted from [i]. *)
Fixpoint find_from (needle : str) (i : nat) (s : str) : option nat :=
  match strip_prefix needle s with
  | Some _ => Some i
  | None =>
      match s with
      | _ :: t => find_from needle (S i) t
      | [] => None
      end
  end.

Definition find (needle s : str) : option nat := find_from needle 0 s.

(** The first [n] characters of [s] when they all are in [p], and what
    follows them. *)
Fixpoint take_class (p : char -> bool) (n : nat) (s : str)
  : option (str * str) :=
  match n with
  | O => Some ([], s)
  | S n' =>
      match s with
      | c :: t =>
          if p c
          then match take_class p n' t with
               | Some (a, b) => Some (c :: a, b)
               | None => None
               end
          else None
      | [] => None
      end
  end.

(** Eleven identifier characters at the head of [s]. *)
Definition id_at (s : str) : option str :=
  option_map fst (take_class idchar 11 s).

Definition after_literal (p : str) (s : str) : option str :=
  match strip_prefix p s with
  | Some t => id_at t
  | None => None
  end.

(** [pattern_watch], [pattern_embed] and [pattern_short] tried at the head
    of [s]: the identifier captured. *)
Definition watch_at (s : str) : option str :=
  orelse (after_literal (str_of "v=") s) (after_literal (str_of "/") s).
Definition embed_at (s : str) : option str := after_literal (str_of "embed/") s.
Definition short_at (s : str) : option str := after_literal (str_of "youtu.be/") s.

(** The leftmost position where [f] accepts. *)
Fixpoint find_at {A} (f : str -> option A) (s : str) : option A :=
  match f s with
  | Some a => Some a
  | None =>
      match s with
      | _ :: t => find_at f t
      | [] => None
      end
  end.

(** The text that follows the first occurrence of ['v='] or ['/']. *)
Definition marker_at (s : str) : option str :=
  orelse (strip_prefix (str_of "v=") s) (strip_prefix (str_of "/") s).
Definition after_first_marker (s : str) : option str := find_at marker_at s.

(** The character before the position reached after reading [a]. *)
Definition prev_after (pv : option char) (a : str) : option char :=
  fold_left (fun _ c => Some c) a pv.

(** A token of [split]: not empty, no whitespace in it. *)
Definition token (t : str) : Prop :=
  t <> [] /\ forallb (fun c => negb (isspace c)) t = true.

(** The marker of the hashtag line. *)
Definition hashtags_marker : str := str_of "HASHTAGS:".

(** The position is at the end of a line: nothing follows, or a newline. *)
Definition line_end (tail : str) : bool :=
  match tail with [] => true | c :: _ => (c =? nl)%N end.

(** The value of [content] in [parse_article_response] when the title has
    been dealt with (before the hashtags are looked for). *)
Definition content_after_title (response : str) : str :=
  match search title_re response with
  | Some _ => strip (sub title_line_re [] response)
  | None => response
  end.

(** The title after the two [re.sub] of [sanitize_filename]. *)
Definition cleaned (title : str) : str :=
  sub spaces_re (str_of "_") (sub invalid_re [] title).

(** Whitespace runs replaced by one underscore: what
    [re.sub(r'\s+', '_', s)] computes. *)
Fixpoint collapse (in_run : bool) (s : str) : str :=
  match s with
  | [] => []
  | c :: t =>
      if isspace c
      then (if in_run then collapse true t else ch "_" :: collapse true t)
      else c :: collapse false t
  end.

End Direct.

Import Direct.

(** ** build_prompt *)

Module Prompt.

(** The double quote. *)
Definition dq : char := 34%N.

(** [size_guidance['SHORT']] *)
Definition guidance_short : str :=
  str_of "The article should be approximately 1-2 pages long (500-1000 "
  ++ str_of "words).".

(** [size_guidance['MEDIUM']] *)
Definition guidance_medium : str :=
  str_of "The article should be approximately 2-4 pages long (1000-2000 "
  ++ str_of "words).".

(** [size_guidance['LONG']] *)
Definition guidance_long : str :=
  str_of "The article should be approximately 4-6 pages long (2000-3000 "
  ++ str_of "words).".

(** The text of [system_instruction] before the size guidance. *)
Definition system_head : str :=
  join [nl]
    [str_of "ROLE & OBJECTIVE:";
     (str_of "You are a Senior Technical Evangelist and Engineering Editor. "
       ++ str_of "Your goal is to ingest multiple raw transcripts (attached by "
       ++ str_of "the user), filter out conversational noise, synthesize the "
       ++ str_of "technical concepts, and produce a high-impact, "
       ++ [dq]
       ++ str_of "viral-style"
       ++ [dq]
       ++ str_of " LinkedIn article. It should be informative, and provide core "
       ++ str_of "concepts to people. ")].

(** The text of [system_instruction] after the size guidance. *)
Definition system_tail : str :=
  join [nl]
    [[];
     [];
     str_of "YOUR DATA SOURCE:";
     (str_of "The user will attach multiple files (transcripts/notes). "
       ++ str_of "These contain the source of truth.");
     (str_of "Prioritize Synthesis: Do not just summarize one file after "
       ++ str_of "another. Look for patterns, conflicting opinions, and "
       ++ str_of "complementary technical details across all provided files to "
       ++ str_of "create a unified narrative.");
     (str_of "Ignore Fluff: Disregard conversational filler (e.g., "
       ++ [dq]
       ++ str_of "Can you hear me?"
       ++ [dq]
       ++ str_of ", "
       ++ [dq]
       ++ str_of "Next slide"
       ++ [dq]
       ++ str_of ", jokes). Focus purely on architectural details, technical "
       ++ str_of "trade-offs, and engineering insights.");
     [];
     str_of "CONTENT GUIDELINES:";
     (str_of "Fairness is Key: When comparing technologies (e.g., Ray vs. "
       ++ str_of "Triton), you must be objective. Highlight where Tool A shines "
       ++ str_of "and where Tool B is better. Avoid marketing hype; focus on "
       ++ str_of "engineering reality.");
     (str_of "Depth: The content must be useful to a technical "
       ++ str_of "practitioner. Do not stay on the surface.");
     [];
     str_of "OUTPUT FORMATTING (STRICT LINKEDIN STYLE):";
     (str_of "The Hook: Start with a punchy, 1-2 sentence hook. No "
       ++ [dq]
       ++ str_of "In this post"
       ++ [dq]
       ++ str_of " or "
       ++ [dq]
       ++ str_of "Today we discuss."
       ++ [dq]
       ++ str_of " Jump straight into the tension or the value proposition.");
     str_of "Structure:";
     str_of "Use short paragraphs (1-2 sentences max).";
     (str_of "Use double line breaks for "
       ++ [dq]
       ++ str_of "white space"
       ++ [dq]
       ++ str_of " readability.");
     str_of "Use bullet points for technical comparisons or feature lists.";
     (str_of "Tone: Professional, insightful, slightly conversational but "
       ++ str_of "highly technical.");
     (str_of "Emojis: Use them to break up text, but do not overdo it. "
       ++ str_of "(e.g., "
       ++ [63743%N; 252%N; 246%N; 196%N]
       ++ str_of " "
       ++ [63743%N; 252%N; 245%N; 8224%N; 212%N; 8719%N; 232%N]
       ++ str_of " "
       ++ [63743%N; 252%N; 237%N; 176%N]
       ++ str_of ").");
     (str_of "Engagement: End with a specific question to the audience to "
       ++ str_of "drive comments.");
     str_of "Hashtags: 3-5 relevant tags at the very bottom.";
     [];
     str_of "IMPORTANT OUTPUT REQUIREMENTS:";
     (str_of "1. The article title should be on the first line, prefixed "
       ++ str_of "with "
       ++ [dq]
       ++ str_of "TITLE: "
       ++ [dq]);
     str_of "2. The article content should follow after a blank line";
     (str_of "3. At the end, include a line with "
       ++ [dq]
       ++ str_of "HASHTAGS: "
       ++ [dq]
       ++ str_of " followed by 3-5 relevant hashtags separated by spaces");
     [];
     str_of "INTERACTION MODEL:";
     (str_of "The user will provide the files and a specific "
       ++ [dq]
       ++ str_of "Context Block"
       ++ [dq]
       ++ str_of " containing the Topic, Angle, and Audience. You will wait for "
       ++ str_of "this input, analyze the attached files based on those "
       ++ str_of "variables, and generate the post.")].

(** The text of [user_prompt] between the context block and the
    transcripts. *)
Definition user_please : str :=
  join [nl]
    [[];
     [];
     (str_of "Please analyze the following transcripts and generate a "
       ++ str_of "LinkedIn article based on the guidelines above:");
     [];
     []].

(** The text of [user_prompt] after the transcripts. *)
Definition user_remember : str :=
  join [nl]
    [[];
     [];
     str_of "Remember to:";
     (str_of "1. Start your response with "
       ++ [dq]
       ++ str_of "TITLE: "
       ++ [dq]
       ++ str_of " followed by the article title");
     str_of "2. Include the full article content";
     (str_of "3. End with "
       ++ [dq]
       ++ str_of "HASHTAGS: "
       ++ [dq]
       ++ str_of " followed by 3-5 relevant hashtags")].

(** The pieces of the transcript header. *)
Definition transcript_open : str :=
  join [nl]
    [[];
     [];
     str_of "--- TRANSCRIPT "].

Definition transcript_close : str :=
  join [nl]
    [str_of " ---";
     [];
     []].

(** The pieces of the context block. *)
Definition context_open : str :=
  join [nl]
    [[];
     str_of "CONTEXT BLOCK:";
     str_of "Topic: "].

Definition context_close : str :=
  join [nl]
    [[];
     str_of "Angle: Technical deep-dive with practical insights";
     str_of "Audience: Senior engineers and technical practitioners";
     []].

(** [size_guidance] *)
Definition size_guidance : list (str * str) :=
  [(str_of "SHORT", guidance_short);
   (str_of "MEDIUM", guidance_medium);
   (str_of "LONG", guidance_long)].

(** [d.get(key, default)] *)
Fixpoint dict_get (d : list (str * str)) (key default : str) : str :=
  match d with
  | [] => default
  | (k, v) :: d' => if str_eqb k key then v else dict_get d' key default
  end.

(** [str(i)] for a count. *)
Definition str_of_nat (i : nat) : str :=
  str_of (NilEmpty.string_of_uint (Nat.to_uint i)).

(** [f"\n\n--- TRANSCRIPT {i} ---\n\n{transcript}\n"] *)
Definition transcript_section (i : nat) (transcript : str) : str :=
  transcript_open ++ str_of_nat i ++ transcript_close ++ transcript ++ [nl].

(** The [for i, transcript in enumerate(transcripts, 1)] loop, from index
    [i], with [transcript_content] so far. *)
Fixpoint transcript_loop (i : nat) (transcripts : list str)
  (transcript_content : str) : str :=
  match transcripts with
  | [] => transcript_content
  | transcript :: more =>
      transcript_loop (S i) more
        (transcript_content ++ transcript_section i transcript)
  end.

Definition context_block_of (context_message : str) : str :=
  if negb (is_empty context_message) && negb (is_empty (strip context_message))
  then context_open ++ context_message ++ context_close
  else [].

Definition build_prompt (transcripts : list str)
  (context_message output_size : str) (enable_research : bool) : str * str :=
  let transcript_content := transcript_loop 1 transcripts [] in
  let context_block := context_block_of context_message in
  let system_instruction :=
    system_head
    ++ dict_get size_guidance output_size
         (dict_get size_guidance (str_of "MEDIUM") [])
    ++ system_tail in
  let user_prompt :=
    context_block ++ user_please ++ transcript_content ++ user_remember in
  (system_instruction, user_prompt).

(** [needle in s] *)
Definition contains (needle s : str) : bool :=
  match find needle s with Some _ => true | None => false end.

End Prompt.

Import Prompt.

(** ** Readings of a run *)

Module Observe.

Import Script.

(** The snippets of the fetches that succeeded, in order. *)
Fixpoint successful_snippets (evs : list event) : list (list str) :=
  match evs with
  | [] => []
  | FetchTranscript _ _ (Some snippets) :: more =>
      snippets :: successful_snippets more
  | _ :: more => successful_snippets more
  end.

(** The snippets of the downloads that came to their end, in order: the
    fetch succeeded and the sleep after it, if there was one, did not
    raise. *)
Fixpoint obtained_snippets (evs : list event) : list (list str) :=
  match evs with
  | [] => []
  | FetchTranscript _ _ (Some snippets) :: more =>
      match more with
      | Sleep _ false :: _ => obtained_snippets more
      | _ => snippets :: obtained_snippets more
      end
  | _ :: more => obtained_snippets more
  end.

Definition is_sleep (e : event) : bool :=
  match e with Sleep _ _ => true | _ => false end.

(** The article file was written. *)
Definition written_ok (e : event) : bool :=
  match e with WriteArticle _ _ true => true | _ => false end.

(** The generation service answered. *)
Definition generation_answered (e : event) : bool :=
  match e with GenerateRequest _ _ _ _ _ (Some _) => true | _ => false end.

(** A sleep of the download loop lasts [delay] seconds, and [delay] is
    positive. *)
Definition sleep_of (delay : Z) (e : event) : Prop :=
  match e with Sleep s _ => s = delay /\ (0 < delay)%Z | _ => True end.

(** A fetch is for the identifier extracted from one of [urls], first in
    English and then in any language. *)
Definition fetch_of (urls : list str) (e : event) : Prop :=
  match e with
  | FetchTranscript v l _ =>
      (exists url, In url urls /\ get_video_id url = Return v)
      /\ (l = Some english \/ l = None)
  | _ => True
  end.

(** The request of [generate_article] for the arguments of the command
    line. *)
Definition request_of (args : namespace) (key : str) (ts : list str)
  (chunks : option (list (option str))) : event :=
  GenerateRequest key ts (arg_context args) (arg_output_size args)
    (arg_enable_research args) chunks.

(** [articles_dir / f"{filename}.md"] *)
Definition article_path (title : str) : str :=
  str_of "articles/" ++ sanitize_filename title ++ str_of ".md".

(** What can follow the download loop in a run: nothing; the reading of a
    missing credential; a request that fails; a request that is answered and
    the writing of the article parsed from the answer. *)
Definition after_downloads (args : namespace) (ts : list str)
  (after : list event) (code : Z) : Prop :=
  (after = [] /\ ts = [] /\ code = 1%Z)
  \/ (ts <> [] /\ exists k, falsy k = true /\ after = [ReadCredential k]
                           /\ code = 1%Z)
  \/ (ts <> [] /\ exists key, key <> []
        /\ after = [ReadCredential (Some key); request_of args key ts None]
        /\ code = 1%Z)
  \/ (ts <> [] /\ exists key cs now title content hashtags ok,
        key <> []
        /\ parse_article_response now (concat_chunks cs)
           = (title, content, hashtags)
        /\ after = [ReadCredential (Some key);
                    request_of args key ts (Some cs);
                    WriteArticle (article_path title)
                      (article_text title content hashtags) ok]
        /\ code = (if ok then 0 else 1)%Z).

(** The position after [pre] is the start of a line. *)
Definition starts_line (pre : str) : bool :=
  match prev_after None pre with None => true | Some c => (c =? nl)%N end.

(** The marker of the title line. *)
Definition title_marker : str := str_of "TITLE:".

(** A character that [sanitize_filename] lets through as it is. *)
Definition filename_char (c : char) : bool :=
  negb (invalid_char c) && negb (isspace c).

(** The text of a chunk; a chunk without text adds nothing. *)
Definition chunk_text (c : option str) : str :=
  match c with Some t => t | None => [] end.

(** The transcripts with their numbers, from [i]. *)
Definition numbered (i : nat) (transcripts : list str) : list (nat * str) :=
  combine (seq i (length transcripts)) transcripts.

End Observe.

Import Observe.

(** * Properties *)

(** ** Python strings *)

Section PyFacts.

Lemma lstrip_split (s : str) :
  exists ws, s = ws ++ lstrip s /\ forallb isspace ws = true.
Proof.
  induction s as [|c t [ws [E H]]]; [exists []; auto|].
  simpl. destruct (isspace c) eqn:Hc.
  - exists (c :: ws). simpl. rewrite Hc, H. split; [congruence|reflexivity].
  - exists []. auto.
Qed.

Lemma lstrip_spaces (ws s : str) :
  forallb isspace ws = true -> lstrip (ws ++ s) = lstrip s.
Proof.
  induction ws as [|c t IH]; simpl; [reflexivity|].
  intros H. apply andb_prop in H. destruct H as [Hc Ht].
  rewrite Hc. auto.
Qed.

Lemma lstrip_head (c : char) (s : str) :
  isspace c = false -> lstrip (c :: s) = c :: s.
Proof. intros H. simpl. now rewrite H. Qed.

Lemma lstrip_all_space (s : str) :
  forallb isspace s = true -> lstrip s = [].
Proof.
  intros H. rewrite <- (app_nil_r s). now rewrite lstrip_spaces.
Qed.

Lemma lstrip_nil_all_space (s : str) :
  lstrip s = [] -> forallb isspace s = true.
Proof.
  induction s as [|c t IH]; simpl; [reflexivity|].
  destruct (isspace c); [auto|discriminate].
Qed.

Lemma rstrip_spaces (s ws : str) :
  forallb isspace ws = true -> rstrip (s ++ ws) = rstrip s.
Proof.
  intros H. unfold rstrip. rewrite rev_app_distr.
  rewrite lstrip_spaces; [reflexivity|].
  rewrite forallb_forall in *. intros x Hx. apply H. now apply in_rev.
Qed.

Lemma rstrip_last (s : str) (c : char) :
  isspace c = false -> rstrip (s ++ [c]) = s ++ [c].
Proof.
  intros H. unfold rstrip. rewrite rev_app_distr. simpl.
  rewrite H. simpl. now rewrite rev_involutive.
Qed.

Lemma rstrip_split (s : str) :
  exists ws, s = rstrip s ++ ws /\ forallb isspace ws = true.
Proof.
  destruct (lstrip_split (rev s)) as [ws [E H]].
  exists (rev ws). split.
  - unfold rstrip. rewrite <- rev_app_distr, <- E. now rewrite rev_involutive.
  - rewrite forallb_forall in *. intros x Hx. apply H. now apply in_rev.
Qed.

(** [rstrip] keeps a first character that is not whitespace. *)
Lemma rstrip_cons (c : char) (s : str) :
  isspace c = false -> exists t, rstrip (c :: s) = c :: t.
Proof.
  intros Hc. destruct (rstrip_split (c :: s)) as [ws [E H]].
  destruct (rstrip (c :: s)) as [|d t] eqn:R.
  - simpl in E. subst ws. simpl in H. rewrite Hc in H. discriminate.
  - injection E as -> _. now exists t.
Qed.

Lemma strip_all_space (s : str) :
  forallb isspace s = true -> strip s = [].
Proof. intros H. unfold strip. now rewrite lstrip_all_space. Qed.

Lemma strip_nil_all_space (s : str) :
  strip s = [] -> forallb isspace s = true.
Proof.
  unfold strip. intros H.
  destruct (rstrip_split (lstrip s)) as [ws [E Hws]]. rewrite H in E.
  simpl in E. destruct (lstrip_split s) as [ws' [E' Hws']].
  rewrite E'. rewrite forallb_app, Hws'. simpl. now rewrite E.
Qed.

(** A string that has a character that is not whitespace does not strip to
    the empty string. *)
Lemma strip_not_blank (s : str) (c : char) :
  In c s -> isspace c = false -> is_empty (strip s) = false.
Proof.
  intros Hin Hc. destruct (strip s) eqn:E; [|reflexivity].
  apply strip_nil_all_space in E. rewrite forallb_forall in E.
  rewrite (E c Hin) in Hc. discriminate.
Qed.

(** No whitespace at either end: nothing to strip. *)
Lemma strip_ends (c d : char) (s : str) :
  isspace c = false -> isspace d = false ->
  strip (c :: s ++ [d]) = c :: s ++ [d].
Proof.
  intros Hc Hd. unfold strip. rewrite lstrip_head by assumption.
  exact (rstrip_last (c :: s) d Hd).
Qed.

Lemma strip_no_space (s : str) :
  forallb (fun c => negb (isspace c)) s = true -> strip s = s.
Proof.
  intros H. destruct s as [|c t]; [reflexivity|].
  destruct (exists_last (l := c :: t)) as [t' [d E]]; [discriminate|].
  assert (Hd : isspace d = false).
  { rewrite forallb_forall in H. apply negb_true_iff, H. rewrite E.
    apply in_or_app. right. now left. }
  assert (Hc : isspace c = false).
  { simpl in H. apply andb_prop in H. now apply negb_true_iff. }
  destruct t' as [|c' t''].
  - simpl in E. injection E as -> ->. unfold strip.
    rewrite lstrip_head by assumption. exact (rstrip_last [] d Hd).
  - simpl in E. injection E as -> ->. now apply strip_ends.
Qed.

Lemma strip_length (s : str) : length (strip s) <= length s.
Proof.
  unfold strip.
  destruct (rstrip_split (lstrip s)) as [ws [E _]].
  destruct (lstrip_split s) as [ws' [E' _]].
  apply (f_equal (@length _)) in E. apply (f_equal (@length _)) in E'.
  rewrite length_app in E, E'. lia.
Qed.

Lemma strip_idempotent (s : str) : strip (strip s) = strip s.
Proof.
  destruct (strip s) as [|c t] eqn:E; [reflexivity|].
  rewrite <- E.
  (* the stripped text starts and ends with a non-space *)
  unfold strip in *.
  destruct (lstrip s) as [|a l] eqn:L; [discriminate|].
  assert (Ha : isspace a = false).
  { destruct s as [|x xs]; [discriminate|].
    clear E. revert L. induction (x :: xs) as [|y ys IH]; [discriminate|].
    simpl. destruct (isspace y) eqn:Hy; [auto|].
    intros [= -> _]. exact Hy. }
  destruct (rstrip_cons a l Ha) as [t' R]. rewrite R in *.
  rewrite lstrip_head by assumption. rewrite <- R.
  unfold rstrip. rewrite rev_involutive.
  destruct (lstrip (rev (a :: l))) as [|z zs] eqn:Z; [reflexivity|].
  assert (Hz : isspace z = false).
  { revert Z. induction (rev (a :: l)) as [|y ys IH]; [discriminate|].
    simpl. destruct (isspace y) eqn:Hy; [auto|].
    intros [= -> _]. exact Hy. }
  now rewrite lstrip_head.
Qed.

End PyFacts.

(** ** The matcher on the constructs of the script *)

Section ReFacts.

Lemma option_map_orelse {A B} (f : A -> B) (x y : option A) :
  option_map f (orelse x y) = orelse (option_map f x) (option_map f y).
Proof. now destruct x. Qed.

Lemma strip_prefix_app (p t : str) : strip_prefix p (p ++ t) = Some t.
Proof.
  induction p as [|c p IH]; simpl; [reflexivity|]. now rewrite N.eqb_refl.
Qed.

Lemma strip_prefix_inv (p s t : str) :
  strip_prefix p s = Some t -> s = p ++ t.
Proof.
  revert s. induction p as [|c p IH]; simpl; intros s H.
  - congruence.
  - destruct s as [|d s]; [discriminate|].
    destruct (N.eqb_spec c d); [|discriminate]. subst d.
    f_equal. auto.
Qed.

Lemma take_class_inv (p : char -> bool) (n : nat) (s a b : str) :
  take_class p n s = Some (a, b) ->
  s = a ++ b /\ length a = n /\ forallb p a = true.
Proof.
  revert s a b. induction n as [|n IH]; simpl; intros s a b H.
  - injection H as <- <-. auto.
  - destruct s as [|c t]; [discriminate|].
    destruct (p c) eqn:Hc; [|discriminate].
    destruct (take_class p n t) as [[a' b']|] eqn:E; [|discriminate].
    injection H as <- <-. destruct (IH _ _ _ E) as (-> & <- & Hp).
    simpl. now rewrite Hc, Hp.
Qed.

Lemma take_class_app (p : char -> bool) (a b : str) :
  forallb p a = true -> take_class p (length a) (a ++ b) = Some (a, b).
Proof.
  induction a as [|c a IH]; simpl; [reflexivity|].
  intros H. apply andb_prop in H. destruct H as [Hc Ha].
  now rewrite Hc, IH.
Qed.

Lemma id_at_app (id t : str) :
  length id = 11 -> forallb idchar id = true -> id_at (id ++ t) = Some id.
Proof.
  intros L H. unfold id_at. rewrite <- L. now rewrite take_class_app.
Qed.

Lemma id_at_inv (s id : str) :
  id_at s = Some id ->
  length id = 11 /\ forallb idchar id = true /\ exists t, s = id ++ t.
Proof.
  unfold id_at. destruct (take_class idchar 11 s) as [[a b]|] eqn:E;
    [|discriminate].
  simpl. intros [= <-]. destruct (take_class_inv _ _ _ _ _ E) as (-> & L & H).
  eauto.
Qed.

Lemma rmatch_cat (r1 r2 : regex) (st : mstate) (k : mstate -> option mstate) :
  rmatch (Cat r1 r2) st k = rmatch r1 st (fun st1 => rmatch r2 st1 k).
Proof. reflexivity. Qed.

Lemma rmatch_alt (r1 r2 : regex) (st : mstate) (k : mstate -> option mstate) :
  rmatch (Alt r1 r2) st k = orelse (rmatch r1 st k) (rmatch r2 st k).
Proof. reflexivity. Qed.

Lemma rmatch_lit (p : str) (st : mstate) (k : mstate -> option mstate) :
  rmatch (lit p) st k =
  match strip_prefix p (rest st) with
  | Some t => k (MState (prev_after (prev st) p) t (grp st))
  | None => None
  end.
Proof.
  revert st. induction p as [|c p IH]; intros [pv s g]; simpl.
  - reflexivity.
  - destruct s as [|d s]; [reflexivity|].
    destruct (N.eqb_spec c d); [|reflexivity]. subst d. now rewrite IH.
Qed.

Lemma repeat_loop_take (p : char -> bool) (g : option str)
  (k : mstate -> option mstate) (n : nat) (pv : option char) (s : str) :
  repeat_loop p g k n pv s =
  match take_class p n s with
  | Some (a, b) => k (MState (prev_after pv a) b g)
  | None => None
  end.
Proof.
  revert pv s. induction n as [|n IH]; intros pv s; simpl; [reflexivity|].
  destruct s as [|c t]; [reflexivity|].
  destruct (p c); [|reflexivity]. rewrite IH.
  now destruct (take_class p n t) as [[a b]|].
Qed.

(** With nothing required after it, [p*] always matches and leaves the
    capture alone. *)
Lemma star_loop_some (p : char -> bool) (g : option str) (s : str) :
  forall pv, exists st, star_loop p g Some pv s = Some st /\ grp st = g.
Proof.
  induction s as [|c t IH]; intros pv; simpl.
  - eauto.
  - destruct (p c); [|eauto].
    destruct (IH (Some c)) as [st [E G]]. rewrite E. simpl. eauto.
Qed.

Lemma firstn_length_app (a b : str) :
  firstn (length (a ++ b) - length b) (a ++ b) = a.
Proof.
  rewrite length_app. replace (length a + length b - length b) with (length a) by lia.
  rewrite firstn_app, Nat.sub_diag, firstn_all. simpl. apply app_nil_r.
Qed.

(** [([0-9A-Za-z_-]{11})] followed by nothing or by [.*]: the capture. *)
Lemma group_id_then (more : regex) (st : mstate) :
  (forall st2, exists st3, rmatch more st2 Some = Some st3
                           /\ grp st3 = grp st2) ->
  option_map grp (rmatch (Cat (Group (Repeat 11 idchar)) more) st Some)
  = option_map Some (id_at (rest st)).
Proof.
  intros Hmore. rewrite rmatch_cat. cbn [rmatch]. rewrite repeat_loop_take.
  unfold id_at.
  destruct (take_class idchar 11 (rest st)) as [[a b]|] eqn:E; [|reflexivity].
  destruct (take_class_inv _ _ _ _ _ E) as (Es & _ & _).
  cbn [option_map fst rest prev].
  match goal with |- option_map grp (rmatch more ?x Some) = _ =>
    destruct (Hmore x) as [st3 [E3 G3]] end.
  rewrite E3. cbn [option_map grp] in *. rewrite G3, Es.
  now rewrite firstn_length_app.
Qed.

Lemma group_id_last (st : mstate) :
  option_map grp (rmatch (Group (Repeat 11 idchar)) st Some)
  = option_map Some (id_at (rest st)).
Proof.
  cbn [rmatch]. rewrite repeat_loop_take. unfold id_at.
  destruct (take_class idchar 11 (rest st)) as [[a b]|] eqn:E; [|reflexivity].
  destruct (take_class_inv _ _ _ _ _ E) as (Es & _ & _).
  cbn [option_map fst rest prev grp]. rewrite Es.
  now rewrite firstn_length_app.
Qed.

Lemma star_dot_more (st2 : mstate) :
  exists st3, rmatch (Star dot) st2 Some = Some st3 /\ grp st3 = grp st2.
Proof. cbn [rmatch]. apply star_loop_some. Qed.

Lemma match_watch (pv : option char) (s : str) :
  option_map grp (match_at pattern_watch pv s) = option_map Some (watch_at s).
Proof.
  unfold match_at, pattern_watch, watch_at, after_literal.
  rewrite rmatch_cat, rmatch_alt, !rmatch_lit, !option_map_orelse.
  cbn [rest]. f_equal.
  - destruct (strip_prefix (str_of "v=") s) as [t|]; [|reflexivity].
    rewrite (group_id_then (Star dot)); [reflexivity|apply star_dot_more].
  - destruct (strip_prefix (str_of "/") s) as [t|]; [|reflexivity].
    rewrite (group_id_then (Star dot)); [reflexivity|apply star_dot_more].
Qed.

Lemma match_embed (pv : option char) (s : str) :
  option_map grp (match_at pattern_embed pv s) = option_map Some (embed_at s).
Proof.
  unfold match_at, pattern_embed, embed_at, after_literal.
  rewrite rmatch_cat, rmatch_lit. cbn [rest].
  destruct (strip_prefix (str_of "embed/") s) as [t|]; [|reflexivity].
  now rewrite group_id_last.
Qed.

Lemma match_short (pv : option char) (s : str) :
  option_map grp (match_at pattern_short pv s) = option_map Some (short_at s).
Proof.
  unfold match_at, pattern_short, short_at, after_literal.
  rewrite rmatch_cat, rmatch_lit. cbn [rest].
  destruct (strip_prefix (str_of "youtu.be/") s) as [t|]; [|reflexivity].
  now rewrite group_id_last.
Qed.

(** [re.search] returns the capture at the leftmost accepting position. *)
Lemma search_from_find (r : regex) (f : str -> option str) :
  (forall pv s, option_map grp (match_at r pv s) = option_map Some (f s)) ->
  forall s i pv,
    option_map m_group1 (search_from r i pv s) = option_map Some (find_at f s).
Proof.
  intros H. induction s as [|c t IH]; intros i pv; simpl.
  - specialize (H pv []). destruct (match_at r pv []), (f []); simpl in *;
      congruence.
  - specialize (H pv (c :: t)).
    destruct (match_at r pv (c :: t)), (f (c :: t)); simpl in *;
      first [congruence | apply IH].
Qed.

Lemma find_at_none {A} (f : str -> option A) (s : str) :
  find_at f s = None <-> (forall a b, s = a ++ b -> f b = None).
Proof.
  induction s as [|c t IH]; simpl.
  - split.
    + intros H a b E. symmetry in E. apply app_eq_nil in E.
      destruct E as [_ ->]. now destruct (f []).
    + intros H. now rewrite (H [] []).
  - split.
    + intros H a b E. destruct (f (c :: t)) eqn:F; [discriminate|].
      destruct a as [|x a]; simpl in E.
      * now subst b.
      * injection E as _ E. apply (proj1 IH H a b E).
    + intros H. rewrite (H [] (c :: t) eq_refl).
      apply IH. intros a b E. apply (H (c :: a) b). now rewrite E.
Qed.


End ReFacts.

(** ** get_video_id *)

Section VideoId.

Lemma idchar_not_space (c : char) : idchar c = true -> isspace c = false.
Proof.
  intros H. destruct (isspace c) eqn:E; [|reflexivity]. exfalso.
  unfold idchar, isspace in *.
  rewrite ?orb_true_iff, ?andb_true_iff, ?N.leb_le, ?N.eqb_eq in *. lia.
Qed.

Lemma idchars_no_space (s : str) :
  forallb idchar s = true -> forallb (fun c => negb (isspace c)) s = true.
Proof.
  rewrite !forallb_forall. intros H c Hc.
  now rewrite (idchar_not_space c (H c Hc)).
Qed.

Lemma find_at_some {A} (f : str -> option A) (s : str) (x : A) :
  find_at f s = Some x -> exists a b, s = a ++ b /\ f b = Some x.
Proof.
  induction s as [|c t IH]; simpl.
  - destruct (f []) eqn:F; [|discriminate]. intros [= ->]. now exists [], [].
  - destruct (f (c :: t)) eqn:F.
    + intros [= ->]. now exists [], (c :: t).
    + intros H. destruct (IH H) as (a & b & -> & Fb). now exists (c :: a), b.
Qed.

Lemma find_at_here {A} (f : str -> option A) (s : str) (x : A) :
  f s = Some x -> find_at f s = Some x.
Proof. intros H. destruct s; simpl; now rewrite H. Qed.

Lemma find_at_skip {A} (f : str -> option A) (c : char) (t : str) :
  f (c :: t) = None -> find_at f (c :: t) = find_at f t.
Proof. intros H. simpl. now rewrite H. Qed.

Lemma after_literal_inv (p s id : str) :
  after_literal p s = Some id ->
  length id = 11 /\ forallb idchar id = true /\ exists t, s = p ++ id ++ t.
Proof.
  unfold after_literal. destruct (strip_prefix p s) as [u|] eqn:P;
    [|discriminate].
  intros H. apply strip_prefix_inv in P.
  destruct (id_at_inv _ _ H) as (L & I & t & ->). eauto.
Qed.

(** What [pattern_watch] accepts at a position. *)
Lemma watch_at_inv (s id : str) :
  watch_at s = Some id ->
  length id = 11 /\ forallb idchar id = true /\
  exists m t, s = m ++ id ++ t /\ (m = str_of "v=" \/ m = str_of "/").
Proof.
  unfold watch_at.
  destruct (after_literal (str_of "v=") s) as [x|] eqn:V; simpl.
  - intros [= ->]. destruct (after_literal_inv _ _ _ V) as (L & I & t & E).
    repeat split; trivial. exists (str_of "v="), t. auto.
  - intros H. destruct (after_literal_inv _ _ _ H) as (L & I & t & E).
    repeat split; trivial. exists (str_of "/"), t. auto.
Qed.

Lemma watch_at_length (s id : str) : watch_at s = Some id -> 12 <= length s.
Proof.
  intros H. destruct (watch_at_inv _ _ H) as (L & _ & m & t & -> & [-> | ->]);
    rewrite !length_app, L; simpl; lia.
Qed.

(** Wherever the embed or the short-link pattern matches, the first pattern
    matches at the slash. *)
Lemma watch_covers (p : str) (f : str -> option str) (url : str) :
  (forall s, f s = after_literal (p ++ str_of "/") s) ->
  find_at watch_at url = None -> find_at f url = None.
Proof.
  intros Hf H. apply find_at_none. intros a b E.
  destruct (f b) as [id|] eqn:Fb; [exfalso|reflexivity].
  rewrite Hf in Fb.
  destruct (after_literal_inv _ _ _ Fb) as (L & I & t & ->).
  rewrite find_at_none in H.
  specialize (H (a ++ p) (str_of "/" ++ id ++ t)).
  rewrite E, <- !app_assoc in H. specialize (H eq_refl).
  unfold watch_at, after_literal in H. simpl in H.
  rewrite (id_at_app id t L I) in H. discriminate.
Qed.

Lemma first_pattern_direct (url : str) :
  first_pattern patterns url = option_map Some (find_at watch_at url).
Proof.
  unfold patterns, first_pattern, search.
  pose proof (search_from_find _ _ match_watch url 0 None) as Hw.
  pose proof (search_from_find _ _ match_embed url 0 None) as He.
  pose proof (search_from_find _ _ match_short url 0 None) as Hs.
  destruct (find_at watch_at url) as [id|] eqn:W.
  - destruct (search_from pattern_watch 0 None url); simpl in *; congruence.
  - rewrite (watch_covers (str_of "embed") embed_at url) in He;
      [|reflexivity|assumption].
    rewrite (watch_covers (str_of "youtu.be") short_at url) in Hs;
      [|reflexivity|assumption].
    destruct (search_from pattern_watch 0 None url); [discriminate|].
    destruct (search_from pattern_embed 0 None url); [discriminate|].
    destruct (search_from pattern_short 0 None url); [discriminate|].
    reflexivity.
Qed.

Lemma first_pattern_watch_only (url : str) :
  first_pattern [pattern_watch] url = option_map Some (find_at watch_at url).
Proof.
  unfold first_pattern, search.
  pose proof (search_from_find _ _ match_watch url 0 None) as Hw.
  destruct (find_at watch_at url) as [id|] eqn:W;
    destruct (search_from pattern_watch 0 None url); simpl in *; congruence.
Qed.

Lemma get_video_id_direct (url : str) :
  get_video_id url =
  if is_empty url || is_empty (strip url) then Return None
  else match find_at watch_at url with
       | Some id => Return (Some id)
       | None =>
           if (length (strip url) =? 11)%nat then Return (Some (strip url))
           else RaiseValueError (could_not_extract url)
       end.
Proof.
  unfold get_video_id. rewrite first_pattern_direct.
  now destruct (find_at watch_at url).
Qed.

Lemma blank_test (url : str) :
  is_empty url || is_empty (strip url) = forallb isspace url.
Proof.
  destruct url as [|c t]; [reflexivity|]. cbn [is_empty orb].
  destruct (forallb isspace (c :: t)) eqn:B.
  - now rewrite strip_all_space.
  - destruct (strip (c :: t)) eqn:S; [|reflexivity].
    apply strip_nil_all_space in S. congruence.
Qed.

Lemma matched_not_blank (url id : str) :
  find_at watch_at url = Some id -> forallb isspace url = false.
Proof.
  intros H. destruct (find_at_some _ _ _ H) as (a & b & -> & W).
  destruct (watch_at_inv _ _ W) as (L & I & m & t & -> & _).
  destruct id as [|c id]; [discriminate|].
  simpl in I. apply andb_prop in I. destruct I as [Ic _].
  apply idchar_not_space in Ic.
  destruct (forallb isspace (a ++ m ++ (c :: id) ++ t)) eqn:B; [|reflexivity].
  rewrite !forallb_app in B. simpl in B. rewrite Ic in B.
  rewrite ?andb_false_r in B. simpl in B. rewrite ?andb_false_r in B.
  discriminate.
Qed.

Lemma short_no_match (url : str) :
  length url < 12 -> find_at watch_at url = None.
Proof.
  intros L. destruct (find_at watch_at url) as [id|] eqn:W; [|reflexivity].
  destruct (find_at_some _ _ _ W) as (a & b & -> & Wb).
  apply watch_at_length in Wb. rewrite length_app in L. lia.
Qed.

End VideoId.

Section VideoIdProperties.

(** C4, as stated, fails: on the empty string and on a whitespace-only string
    [get_video_id] returns [None]; no error is raised. *)
Lemma blank_reference_does_not_raise :
  get_video_id (str_of "") = Return None
  /\ get_video_id (str_of "   ") = Return None.
Proof. split; reflexivity. Qed.

(** C4, amended: an empty or whitespace-only reference makes [get_video_id]
    return [None] without raising; a reference of five characters that is not
    whitespace-only makes it raise [ValueError] carrying the reference. *)
Theorem blank_returns_none_short_raises (url : str) :
  (forallb isspace url = true -> get_video_id url = Return None)
  /\ (length url = 5 -> forallb isspace url = false ->
      get_video_id url = RaiseValueError (could_not_extract url)).
Proof.
  rewrite get_video_id_direct, blank_test. split.
  - now intros ->.
  - intros L ->. rewrite short_no_match by lia.
    pose proof (strip_length url) as S.
    destruct (Nat.eqb_spec (length (strip url)) 11); [lia|reflexivity].
Qed.

Lemma blank_returns_none_short_raises_witness :
  get_video_id (str_of "  ") = Return None
  /\ get_video_id (str_of "abcde")
     = RaiseValueError (could_not_extract (str_of "abcde")).
Proof.
  split.
  - apply (proj1 (blank_returns_none_short_raises (str_of "  "))).
    reflexivity.
  - apply (proj2 (blank_returns_none_short_raises (str_of "abcde")));
      reflexivity.
Defined.

(** C5, as stated, fails: the eleven-character reference [hello.world] is
    returned as the identifier although it is not in [[0-9A-Za-z_-]{11}]. *)
Lemma literal_identifier_not_validated :
  get_video_id (str_of "hello.world") = Return (Some (str_of "hello.world"))
  /\ forallb idchar (str_of "hello.world") = false.
Proof. split; reflexivity. Qed.

(** C5, amended: an identifier returned by [get_video_id] has exactly eleven
    characters; it is in [[0-9A-Za-z_-]{11}] when a pattern matched, and
    otherwise it is the trimmed reference, of which only the length was
    checked.  [get_video_id] raises exactly when the reference is not blank,
    no pattern matches and the trimmed reference is not eleven characters
    long. *)
Theorem identifier_has_eleven_characters (url : str) :
  (forall id, get_video_id url = Return (Some id) ->
     length id = 11
     /\ ((first_pattern patterns url = Some (Some id)
          /\ forallb idchar id = true)
         \/ (first_pattern patterns url = None /\ id = strip url)))
  /\ ((exists msg, get_video_id url = RaiseValueError msg) <->
      (forallb isspace url = false /\ first_pattern patterns url = None
       /\ length (strip url) <> 11)).
Proof.
  rewrite get_video_id_direct, blank_test, first_pattern_direct. split.
  - intros id. destruct (forallb isspace url); [discriminate|].
    destruct (find_at watch_at url) as [x|] eqn:W.
    + intros [= ->]. destruct (find_at_some _ _ _ W) as (a & b & _ & Wb).
      destruct (watch_at_inv _ _ Wb) as (L & I & _). auto.
    + destruct (Nat.eqb_spec (length (strip url)) 11); [|discriminate].
      intros [= <-]. auto.
  - destruct (forallb isspace url).
    { split; [intros [msg H]; discriminate | intros [H _]; discriminate]. }
    destruct (find_at watch_at url) as [x|] eqn:W.
    { split; [intros [msg H]; discriminate | intros (_ & H & _); discriminate]. }
    destruct (Nat.eqb_spec (length (strip url)) 11).
    + split; [intros [msg H]; discriminate | intros (_ & _ & H); contradiction].
    + split; [auto | eauto].
Qed.

Lemma identifier_has_eleven_characters_witness :
  length (str_of "dQw4w9WgXcQ") = 11
  /\ ((first_pattern patterns (str_of "https://youtu.be/dQw4w9WgXcQ")
       = Some (Some (str_of "dQw4w9WgXcQ"))
       /\ forallb idchar (str_of "dQw4w9WgXcQ") = true)
      \/ (first_pattern patterns (str_of "https://youtu.be/dQw4w9WgXcQ") = None
          /\ str_of "dQw4w9WgXcQ" = strip (str_of "https://youtu.be/dQw4w9WgXcQ"))).
Proof.
  apply (proj1 (identifier_has_eleven_characters
                  (str_of "https://youtu.be/dQw4w9WgXcQ"))).
  reflexivity.
Defined.

Ltac skip_positions :=
  repeat (rewrite find_at_skip by reflexivity).

Lemma watch_finds_canonical (x : str) :
  length x = 11 -> forallb idchar x = true ->
  find_at watch_at (str_of "https://www.youtube.com/watch?v=" ++ x) = Some x
  /\ find_at watch_at (str_of "https://youtu.be/" ++ x) = Some x
  /\ find_at watch_at (str_of "https://www.youtube.com/embed/" ++ x) = Some x.
Proof.
  intros L I.
  assert (Hv : watch_at (str_of "v=" ++ x) = Some x).
  { unfold watch_at, after_literal. rewrite strip_prefix_app.
    rewrite <- (app_nil_r x) at 1. now rewrite id_at_app. }
  assert (Hs : watch_at (str_of "/" ++ x) = Some x).
  { unfold watch_at, after_literal. rewrite strip_prefix_app.
    rewrite <- (app_nil_r x) at 2. rewrite id_at_app by assumption.
    reflexivity. }
  repeat split; cbn [str_of list_ascii_of_string map app]; skip_positions;
    now apply find_at_here.
Qed.















Lemma first_marker_matches (url : str) :
  forall id more,
    after_first_marker url = Some (id ++ more) ->
    length id = 11 -> forallb idchar id = true ->
    find_at watch_at url = Some id.
Proof.
  unfold after_first_marker. intros id more H L I.
  induction url as [|c u IH]; [discriminate|].
  simpl in H. destruct (marker_at (c :: u)) as [t|] eqn:M.
  - injection H as ->. apply find_at_here.
    unfold marker_at in M. unfold watch_at, after_literal.
    destruct (strip_prefix (str_of "v=") (c :: u)) as [t|] eqn:V;
      cbn [orelse] in M.
    + injection M as ->. now rewrite id_at_app.
    + rewrite M. now rewrite id_at_app.
  - rewrite find_at_skip; [auto|].
    unfold marker_at in M. unfold watch_at, after_literal.
    destruct (strip_prefix (str_of "v=") (c :: u)); [discriminate|].
    cbn [orelse] in M. now rewrite M.
Qed.

(** C10: when the first occurrence of ['v='] or ['/'] in the reference is
    directly followed by eleven characters of [[0-9A-Za-z_-]],
    [get_video_id] returns these, whatever the rest of the reference is;
    [https://example.com/abcdefghijk] yields [abcdefghijk]; and the embed and
    the short-link pattern never decide: the loop over the three patterns
    returns what the first pattern alone returns, which on the embed and
    short-link forms of an identifier is the identifier. *)
Theorem first_pattern_decides :
  (forall url id more,
     after_first_marker url = Some (id ++ more) ->
     length id = 11 -> forallb idchar id = true ->
     get_video_id url = Return (Some id))
  /\ get_video_id (str_of "https://example.com/abcdefghijk")
     = Return (Some (str_of "abcdefghijk"))
  /\ (forall url, first_pattern patterns url = first_pattern [pattern_watch] url)
  /\ (forall x, length x = 11 -> forallb idchar x = true ->
      first_pattern [pattern_watch]
        (str_of "https://www.youtube.com/embed/" ++ x) = Some (Some x)
      /\ first_pattern [pattern_watch] (str_of "https://youtu.be/" ++ x)
         = Some (Some x)).
Proof.
  split; [|split; [|split]].
  - intros url id more H L I.
    pose proof (first_marker_matches url id more H L I) as W.
    rewrite get_video_id_direct, W, blank_test, (matched_not_blank _ _ W).
    reflexivity.
  - reflexivity.
  - intros url. now rewrite first_pattern_direct, first_pattern_watch_only.
  - intros x L I. rewrite !first_pattern_watch_only.
    destruct (watch_finds_canonical x L I) as (_ & E2 & E3).
    now rewrite E2, E3.
Qed.

Lemma first_pattern_decides_witness :
  get_video_id (str_of "v=abcdefghijk&t=42")
    = Return (Some (str_of "abcdefghijk"))
  /\ first_pattern [pattern_watch] (str_of "https://youtu.be/dQw4w9WgXcQ")
     = Some (Some (str_of "dQw4w9WgXcQ")).
Proof.
  split.
  - apply (proj1 first_pattern_decides (str_of "v=abcdefghijk&t=42")
             (str_of "abcdefghijk") (str_of "&t=42")); reflexivity.
  - apply (proj2 (proj2 (proj2 first_pattern_decides)) (str_of "dQw4w9WgXcQ"));
      reflexivity.
Defined.

End VideoIdProperties.

(** ** parse_article_response *)

Section ParseFacts.

Lemma split_from_spaces (ws : str) :
  forallb isspace ws = true ->
  forall cur, split_from cur ws = split_from cur [].
Proof.
  induction ws as [|w ws IH]; intros H cur; [reflexivity|].
  simpl in H. apply andb_prop in H. destruct H as [Hw Hws].
  simpl. rewrite Hw, (IH Hws []). simpl. reflexivity.
Qed.

Lemma split_from_app_spaces (s ws : str) :
  forallb isspace ws = true ->
  forall cur, split_from cur (s ++ ws) = split_from cur s.
Proof.
  intros H. induction s as [|c s IH]; intros cur.
  - now apply split_from_spaces.
  - simpl. now rewrite !IH.
Qed.

Lemma split_lstrip (s : str) : split (lstrip s) = split s.
Proof.
  unfold split. induction s as [|c s IH]; [reflexivity|].
  simpl. destruct (isspace c) eqn:Hc; [assumption|].
  simpl. now rewrite Hc.
Qed.

Lemma split_rstrip (s : str) : split (rstrip s) = split s.
Proof.
  destruct (rstrip_split s) as [ws [E H]].
  rewrite E at 2. unfold split. now rewrite split_from_app_spaces.
Qed.

Lemma split_strip (s : str) : split (strip s) = split s.
Proof. unfold strip. now rewrite split_rstrip, split_lstrip. Qed.

Lemma split_from_tokens (s : str) :
  forall cur,
    forallb (fun c => negb (isspace c)) cur = true ->
    Forall token (split_from cur s).
Proof.
  assert (R : forall cur : str, cur <> [] ->
              forallb (fun c => negb (isspace c)) cur = true ->
              token (rev cur)).
  { intros cur N H. split.
    - intros E. apply N. rewrite <- (rev_involutive cur), E. reflexivity.
    - rewrite forallb_forall in *. intros x Hx. apply H. now apply in_rev. }
  induction s as [|c s IH]; intros cur H; cbn [split_from].
  - destruct cur as [|x cur]; cbn [is_empty]; [constructor|].
    constructor; [|constructor]. apply R; [discriminate|assumption].
  - destruct (isspace c) eqn:Hc.
    + destruct cur as [|x cur]; cbn [is_empty]; [now apply IH|].
      constructor; [apply R; [discriminate|assumption]|now apply IH].
    + apply IH. cbn [forallb]. now rewrite Hc.
Qed.

(** The list comprehension over [split()] changes nothing. *)
Lemma tags_of_split (s : str) :
  map strip (filter (fun tag => negb (is_empty (strip tag))) (split s))
  = split s.
Proof.
  pose proof (split_from_tokens s [] eq_refl) as F. fold (split s) in F.
  induction F as [|t l [N H] F IH]; [reflexivity|].
  cbn [filter]. rewrite (strip_no_space t H).
  destruct t as [|c t]; [contradiction|]. cbn [is_empty negb map].
  now rewrite (strip_no_space (c :: t) H), IH.
Qed.

Lemma find_from_none (needle : str) (s : str) :
  forall i, find_from needle i s = None ->
    forall a b, s = a ++ b -> strip_prefix needle b = None.
Proof.
  induction s as [|c t IH]; intros i H a b E; simpl in H.
  - symmetry in E. apply app_eq_nil in E. destruct E as [_ ->].
    now destruct (strip_prefix needle []).
  - destruct (strip_prefix needle (c :: t)) eqn:P; [discriminate|].
    destruct a as [|x a]; simpl in E.
    + now subst b.
    + injection E as _ E. exact (IH _ H a b E).
Qed.

(** Before its first occurrence, the needle does not start anywhere. *)
Lemma find_from_first (needle : str) (pre s : str) :
  forall i, find_from needle i (pre ++ s) = Some (i + length pre) ->
    forall a b, pre = a ++ b -> b <> [] -> strip_prefix needle (b ++ s) = None.
Proof.
  induction pre as [|c pre IH]; intros i H a b E Hb.
  - symmetry in E. apply app_eq_nil in E. destruct E as [_ ->]. contradiction.
  - simpl in H.
    destruct (strip_prefix needle (c :: pre ++ s)) eqn:P.
    { injection H as H. lia. }
    destruct a as [|x a]; simpl in E.
    + now subst b.
    + injection E as _ E. apply (IH (S i)) with (a := a); [|assumption..].
      rewrite H. f_equal. simpl. lia.
Qed.

Lemma match_at_lit_none (p : str) (r : regex) (pv : option char) (s : str) :
  strip_prefix p s = None -> match_at (Cat (lit p) r) pv s = None.
Proof.
  intros H. unfold match_at. rewrite rmatch_cat, rmatch_lit. cbn [rest].
  now rewrite H.
Qed.

Lemma search_from_none (r : regex) (s : str) :
  (forall a b, s = a ++ b -> forall pv, match_at r pv b = None) ->
  forall i pv, search_from r i pv s = None.
Proof.
  induction s as [|c t IH]; intros H i pv; simpl.
  - now rewrite (H [] [] eq_refl).
  - rewrite (H [] (c :: t) eq_refl). apply IH.
    intros a b E. apply (H (c :: a) b). now rewrite E.
Qed.

Lemma search_from_skip (r : regex) (pre s : str) :
  (forall a b, pre = a ++ b -> b <> [] ->
     forall pv, match_at r pv (b ++ s) = None) ->
  forall i pv,
    search_from r i pv (pre ++ s)
    = search_from r (i + length pre) (prev_after pv pre) s.
Proof.
  induction pre as [|c pre IH]; intros H i pv.
  - simpl. now rewrite Nat.add_0_r.
  - assert (H0 : match_at r pv (c :: pre ++ s) = None)
      by (apply (H [] (c :: pre) eq_refl); discriminate).
    simpl. rewrite H0. rewrite IH.
    + f_equal. lia.
    + intros a b E Hb. apply (H (c :: a) b); [now rewrite E|assumption].
Qed.

Lemma sub_from_no_match (r : regex) (repl : str) (s : str) :
  (forall a b, s = a ++ b -> forall pv, match_at r pv b = None) ->
  forall pv, sub_from r repl 0 pv s = s.
Proof.
  induction s as [|c t IH]; intros H pv; simpl.
  - now rewrite (H [] [] eq_refl).
  - rewrite (H [] (c :: t) eq_refl). f_equal. apply IH.
    intros a b E. apply (H (c :: a) b). now rewrite E.
Qed.

Lemma sub_from_copy (r : regex) (repl : str) (pre s : str) :
  (forall a b, pre = a ++ b -> b <> [] ->
     forall pv, match_at r pv (b ++ s) = None) ->
  forall pv,
    sub_from r repl 0 pv (pre ++ s)
    = pre ++ sub_from r repl 0 (prev_after pv pre) s.
Proof.
  induction pre as [|c pre IH]; intros H pv; [reflexivity|].
  assert (H0 : match_at r pv (c :: pre ++ s) = None)
    by (apply (H [] (c :: pre) eq_refl); discriminate).
  simpl. rewrite H0. f_equal. apply IH.
  intros a b E Hb. apply (H (c :: a) b); [now rewrite E|assumption].
Qed.

Lemma sub_from_drop (r : regex) (repl : str) (a b : str) :
  forall pv,
    sub_from r repl (length a) pv (a ++ b)
    = sub_from r repl 0 (prev_after pv a) b.
Proof.
  induction a as [|x a IH]; intros pv; [reflexivity|].
  simpl. apply IH.
Qed.

(** One match, of the text [m], at the head. *)
Lemma sub_from_match (r : regex) (repl : str) (m tail : str) (st : mstate) :
  forall pv,
    m <> [] -> match_at r pv (m ++ tail) = Some st -> rest st = tail ->
    sub_from r repl 0 pv (m ++ tail)
    = repl ++ sub_from r repl 0 (prev_after pv m) tail.
Proof.
  intros pv N M R. destruct m as [|c m]; [contradiction|].
  cbn [app sub_from]. change (c :: m ++ tail) with ((c :: m) ++ tail).
  rewrite M, R, length_app.
  replace (length (c :: m) + length tail - length tail) with (S (length m))
    by (cbn [length]; lia).
  now rewrite sub_from_drop.
Qed.

Lemma search_from_here (r : regex) (i : nat) (pv : option char) (s : str)
  (st : mstate) :
  match_at r pv s = Some st ->
  search_from r i pv s = Some (Match i (rest st) (grp st)).
Proof. intros H. destruct s; simpl; now rewrite H. Qed.

(** [p*] stops where the class stops, when what follows then matches. *)
Lemma star_loop_longest (p : char -> bool) (g : option str)
  (k : mstate -> option mstate) (ws r : str) (x : mstate) :
  forallb p ws = true ->
  match r with [] => True | c :: _ => p c = false end ->
  forall pv,
    k (MState (prev_after pv ws) r g) = Some x ->
    star_loop p g k pv (ws ++ r) = Some x.
Proof.
  intros Hws Hr. induction ws as [|w ws IH]; intros pv Hk.
  - simpl in *. destruct r as [|c r]; simpl; [assumption|].
    now rewrite Hr.
  - simpl in Hws. apply andb_prop in Hws. destruct Hws as [Hw Hws].
    cbn [app star_loop]. rewrite Hw, (IH Hws (Some w) Hk). reflexivity.
Qed.

(** [p+?] grows until what follows matches. *)
Lemma lazy_loop_until (p : char -> bool) (g : option str)
  (k : mstate -> option mstate) (tail : str) (x : mstate) :
  forall body c,
    p c = true -> forallb p body = true ->
    (forall a b, body = a ++ b -> b <> [] ->
       k (MState (prev_after (Some c) a) (b ++ tail) g) = None) ->
    k (MState (prev_after (Some c) body) tail g) = Some x ->
    lazy_loop p g k (c :: body ++ tail) = Some x.
Proof.
  induction body as [|b body IH]; intros c Hc Hb Hno Hk.
  - cbn [app lazy_loop]. rewrite Hc. simpl in Hk. now rewrite Hk.
  - simpl in Hb. apply andb_prop in Hb. destruct Hb as [Hb Hbody].
    cbn [app lazy_loop]. rewrite Hc.
    assert (H0 : k (MState (Some c) (b :: body ++ tail) g) = None)
      by (apply (Hno [] (b :: body) eq_refl); discriminate).
    rewrite H0. cbn [orelse]. apply (IH b Hb Hbody).
    + intros a b' E Hb'. apply (Hno (b :: a) b'); [now rewrite E|assumption].
    + exact Hk.
Qed.

(** [(.+?)$] captures the rest of the line. *)
Lemma group_lazy_line (p : char -> bool) (st : mstate) (c : char)
  (body tail : str) :
  rest st = c :: body ++ tail ->
  p c = true -> forallb p body = true ->
  forallb dot body = true -> line_end tail = true ->
  rmatch (Cat (Group (LazyPlus p)) Eol) st Some
  = Some (MState (prev_after (Some c) body) tail (Some (c :: body))).
Proof.
  intros R Hc Hp Hd He. rewrite rmatch_cat. cbn [rmatch]. rewrite R.
  apply lazy_loop_until; trivial.
  - intros a b E Hb. destruct b as [|b0 b]; [contradiction|].
    unfold at_eol. cbn [rest app]. subst body.
    rewrite forallb_app in Hd. apply andb_prop in Hd. destruct Hd as [_ Hd].
    simpl in Hd. apply andb_prop in Hd. destruct Hd as [Hd _].
    unfold dot in Hd. apply negb_true_iff in Hd. now rewrite Hd.
  - unfold at_eol. cbn [rest prev]. fold (line_end tail). rewrite He.
    do 3 f_equal. exact (firstn_length_app (c :: body) tail).
Qed.

(** What [hashtags_re] matches at the marker: the marker, the whitespace, and
    the rest of the line, which it captures. *)
Lemma match_hashtags (pv : option char) (ws : str) (c : char)
  (body tail : str) :
  forallb isspace ws = true -> isspace c = false ->
  forallb dot body = true -> line_end tail = true ->
  exists st,
    match_at hashtags_re pv (hashtags_marker ++ ws ++ c :: body ++ tail)
      = Some st
    /\ rest st = tail /\ grp st = Some (c :: body).
Proof.
  intros Hws Hc Hd He. eexists. split.
  - unfold match_at, hashtags_re. fold hashtags_marker.
    rewrite rmatch_cat, rmatch_lit. cbn [rest]. rewrite strip_prefix_app.
    rewrite rmatch_cat. cbn [rmatch rest prev grp].
    apply star_loop_longest; [assumption|assumption|].
    apply (group_lazy_line dot_all _ c body tail); trivial.
    apply forallb_forall. reflexivity.
  - split; reflexivity.
Qed.

Lemma hashtags_no_marker (pv : option char) (s : str) :
  strip_prefix hashtags_marker s = None -> match_at hashtags_re pv s = None.
Proof. apply match_at_lit_none. Qed.

(** [.+?$] without the group reads the same text. *)
Lemma lazy_line (p : char -> bool) (st : mstate) (c : char)
  (body tail : str) :
  rest st = c :: body ++ tail ->
  p c = true -> forallb p body = true ->
  forallb dot body = true -> line_end tail = true ->
  rmatch (Cat (LazyPlus p) Eol) st Some
  = Some (MState (prev_after (Some c) body) tail (grp st)).
Proof.
  intros R Hc Hp Hd He. rewrite rmatch_cat. cbn [rmatch]. rewrite R.
  apply lazy_loop_until; trivial.
  - intros a b E Hb. destruct b as [|b0 b]; [contradiction|].
    unfold at_eol. cbn [rest app]. subst body.
    rewrite forallb_app in Hd. apply andb_prop in Hd. destruct Hd as [_ Hd].
    simpl in Hd. apply andb_prop in Hd. destruct Hd as [Hd _].
    unfold dot in Hd. apply negb_true_iff in Hd. now rewrite Hd.
  - unfold at_eol. cbn [rest prev]. fold (line_end tail). now rewrite He.
Qed.

Lemma match_hashtags_line (pv : option char) (ws : str) (c : char)
  (body tail : str) :
  forallb isspace ws = true -> isspace c = false ->
  forallb dot body = true -> line_end tail = true ->
  exists st,
    match_at hashtags_line_re pv (hashtags_marker ++ ws ++ c :: body ++ tail)
      = Some st
    /\ rest st = tail.
Proof.
  intros Hws Hc Hd He. eexists. split.
  - unfold match_at, hashtags_line_re. fold hashtags_marker.
    rewrite rmatch_cat, rmatch_lit. cbn [rest]. rewrite strip_prefix_app.
    rewrite rmatch_cat. cbn [rmatch rest prev grp].
    apply star_loop_longest; [assumption|assumption|].
    apply (lazy_line dot_all _ c body tail); trivial.
    apply forallb_forall. reflexivity.
  - reflexivity.
Qed.

Lemma hashtags_line_no_marker (pv : option char) (s : str) :
  strip_prefix hashtags_marker s = None ->
  match_at hashtags_line_re pv s = None.
Proof. apply match_at_lit_none. Qed.

Lemma parse_hashtags (now : datetime) (response : str) :
  snd (parse_article_response now response)
  = match search hashtags_re response with
    | Some m =>
        map strip (filter (fun tag => negb (is_empty (strip tag)))
                     (split (strip (group1 m))))
    | None => []
    end.
Proof.
  unfold parse_article_response.
  destruct (search title_re response), (search hashtags_re response);
    reflexivity.
Qed.

Lemma parse_content (now : datetime) (response : str) :
  snd (fst (parse_article_response now response))
  = match search hashtags_re response with
    | Some _ => strip (sub hashtags_line_re [] (content_after_title response))
    | None => content_after_title response
    end.
Proof.
  unfold parse_article_response, content_after_title.
  destruct (search title_re response), (search hashtags_re response);
    reflexivity.
Qed.

Lemma parse_title (now : datetime) (response : str) :
  fst (fst (parse_article_response now response))
  = match search title_re response with
    | Some m =>
        if is_empty (strip (group1 m))
        then str_of "Article_" ++ strftime now
        else strip (group1 m)
    | None => str_of "Article_" ++ strftime now
    end.
Proof.
  unfold parse_article_response.
  destruct (search title_re response) as [m|],
           (search hashtags_re response); cbn [fst snd falsy];
    try reflexivity; now destruct (is_empty (strip (group1 m))).
Qed.

(** The first match of [hashtags_re] in a text whose first marker is
    followed by whitespace and a line. *)
Lemma search_hashtags (pre ws : str) (c : char) (body tail : str) :
  find hashtags_marker (pre ++ hashtags_marker ++ ws ++ c :: body ++ tail)
    = Some (length pre) ->
  forallb isspace ws = true -> isspace c = false ->
  forallb dot body = true -> line_end tail = true ->
  search hashtags_re (pre ++ hashtags_marker ++ ws ++ c :: body ++ tail)
  = Some (Match (length pre) tail (Some (c :: body))).
Proof.
  intros F Hws Hc Hd He. unfold search.
  rewrite search_from_skip.
  - destruct (match_hashtags (prev_after None pre) ws c body tail Hws Hc Hd He)
      as (st & M & R & G).
    rewrite (search_from_here _ _ _ _ _ M), R, G. reflexivity.
  - intros a b E Hb pv. apply hashtags_no_marker.
    exact (find_from_first _ _ _ 0 F a b E Hb).
Qed.

(** [hashtags_line_re] has no [^]: what it matches at a position does not
    depend on the character before it. *)
Lemma match_hashtags_line_prev (pv pv' : option char) (s : str) :
  match_at hashtags_line_re pv s = match_at hashtags_line_re pv' s.
Proof.
  unfold match_at, hashtags_line_re.
  rewrite !rmatch_cat, !rmatch_lit. cbn [rest prev grp].
  destruct (strip_prefix (str_of "HASHTAGS:") s); reflexivity.
Qed.

Lemma sub_hashtags_line_prev (s : str) :
  forall skip pv pv',
    sub_from hashtags_line_re [] skip pv s
    = sub_from hashtags_line_re [] skip pv' s.
Proof.
  induction s as [|c t IH]; intros skip pv pv'; cbn [sub_from];
    now rewrite (match_hashtags_line_prev pv pv').
Qed.

(** The substitution removes the first hashtag line and goes on in the text
    after it. *)
Lemma sub_hashtags_first (pre ws : str) (c : char) (body tail : str) :
  find hashtags_marker (pre ++ hashtags_marker ++ ws ++ c :: body ++ tail)
    = Some (length pre) ->
  forallb isspace ws = true -> isspace c = false ->
  forallb dot body = true -> line_end tail = true ->
  sub hashtags_line_re [] (pre ++ hashtags_marker ++ ws ++ c :: body ++ tail)
  = pre ++ sub hashtags_line_re [] tail.
Proof.
  intros F Hws Hc Hd He. unfold sub.
  rewrite sub_from_copy.
  - f_equal.
    destruct (match_hashtags_line (prev_after None pre) ws c body tail
                Hws Hc Hd He) as (st & M & R).
    replace (hashtags_marker ++ ws ++ c :: body ++ tail)
      with ((hashtags_marker ++ ws ++ c :: body) ++ tail) in *
      by (rewrite <- !app_assoc; reflexivity).
    assert (N : hashtags_marker ++ ws ++ c :: body <> []).
    { intros X. apply (f_equal (@length _)) in X.
      rewrite !length_app in X. simpl in X. lia. }
    rewrite (sub_from_match hashtags_line_re [] _ tail st _ N M R).
    cbn [app]. apply sub_hashtags_line_prev.
  - intros a b E Hb pv. apply hashtags_line_no_marker.
    exact (find_from_first _ _ _ 0 F a b E Hb).
Qed.

(** Where the marker does not occur, the substitution changes nothing. *)
Lemma sub_hashtags_none (s : str) :
  find hashtags_marker s = None -> sub hashtags_line_re [] s = s.
Proof.
  intros F. apply sub_from_no_match.
  intros a b E pv. apply hashtags_line_no_marker.
  exact (find_from_none _ _ 0 F a b E).
Qed.

End ParseFacts.

Section ParseProperties.

(** C3: the response [TITLE: Foo], blank line, [Body text], blank line,
    [HASHTAGS: #a #b #c] parses to the title [Foo], the body [Body text] and
    the hashtags [#a], [#b], [#c], whatever the clock says. *)
Theorem parse_round_trip (now : datetime) :
  parse_article_response now
    (str_of "TITLE: Foo" ++ [nl; nl] ++ str_of "Body text" ++ [nl; nl]
     ++ str_of "HASHTAGS: #a #b #c")
  = (str_of "Foo", str_of "Body text",
     [str_of "#a"; str_of "#b"; str_of "#c"]).
Proof. reflexivity. Qed.

(** C1, as stated, fails: the capture stops at the end of the hashtag line.
    The line [Trailing] after the hashtag line is neither taken as a hashtag
    nor removed from the body. *)
Lemma text_after_hashtag_line_is_kept :
  let response :=
    str_of "Body" ++ [nl] ++ str_of "HASHTAGS: #a #b" ++ [nl]
    ++ str_of "Trailing" in
  let '(_, body, hashtags) := parse_article_response sample_now response in
  hashtags = [str_of "#a"; str_of "#b"]
  /\ body = str_of "Body" ++ [nl; nl] ++ str_of "Trailing"
  /\ hashtags <> split (str_of "#a #b" ++ [nl] ++ str_of "Trailing")
  /\ body <> strip (str_of "Body" ++ [nl]).
Proof. repeat split; discriminate. Qed.

(** C1, amended: take a response whose first [HASHTAGS:] marker is followed
    by whitespace (possibly none) and then by text that starts with a
    character other than whitespace and runs to the end of its line.  The hashtags are the whitespace-separated words of that text
    only, in order.  The body is made from the content that the title step
    leaves: when the first marker of that content is likewise followed by
    whitespace and text up to the end of its line, the body is the text
    before the marker followed by the text after that line, from which every
    further hashtag line has been removed by the same substitution, the
    whole trimmed.  So the text before the marker always stays, and when no
    further marker follows, the text after the hashtag line stays as it is. *)
Theorem hashtag_line_removed (now : datetime) (response : str)
  (pre ws : str) (c : char) (body tail : str) :
  response = pre ++ hashtags_marker ++ ws ++ c :: body ++ tail ->
  find hashtags_marker response = Some (length pre) ->
  forallb isspace ws = true -> isspace c = false ->
  forallb dot body = true -> line_end tail = true ->
  snd (parse_article_response now response) = split (c :: body)
  /\ (forall pre' ws' c' body' tail',
        content_after_title response
          = pre' ++ hashtags_marker ++ ws' ++ c' :: body' ++ tail' ->
        find hashtags_marker (content_after_title response)
          = Some (length pre') ->
        forallb isspace ws' = true -> isspace c' = false ->
        forallb dot body' = true -> line_end tail' = true ->
        snd (fst (parse_article_response now response))
          = strip (pre' ++ sub hashtags_line_re [] tail')
        /\ (find hashtags_marker tail' = None ->
            snd (fst (parse_article_response now response))
              = strip (pre' ++ tail'))).
Proof.
  intros E F Hws Hc Hd He.
  assert (S : search hashtags_re response
              = Some (Match (length pre) tail (Some (c :: body)))).
  { rewrite E in *. exact (search_hashtags pre ws c body tail F Hws Hc Hd He). }
  split.
  - rewrite parse_hashtags, S. unfold group1. cbn [m_group1].
    now rewrite split_strip, tags_of_split.
  - intros pre' ws' c' body' tail' E' F' Hws' Hc' Hd' He'.
    assert (B : snd (fst (parse_article_response now response))
                = strip (pre' ++ sub hashtags_line_re [] tail')).
    { rewrite parse_content, S. rewrite E' in *.
      now rewrite (sub_hashtags_first pre' ws' c' body' tail' F' Hws' Hc' Hd'
                     He'). }
    split; [exact B|].
    intros Ft. now rewrite B, (sub_hashtags_none tail' Ft).
Qed.

Lemma hashtag_line_removed_witness :
  let response :=
    str_of "TITLE: Foo" ++ [nl; nl] ++ str_of "Body" ++ [nl]
    ++ str_of "HASHTAGS: #a #b" ++ [nl] ++ str_of "Trailing" ++ [nl]
    ++ str_of "HASHTAGS: #c" in
  snd (parse_article_response sample_now response) = split (str_of "#a #b")
  /\ snd (fst (parse_article_response sample_now response))
     = strip ((str_of "Body" ++ [nl])
              ++ sub hashtags_line_re []
                   ([nl] ++ str_of "Trailing" ++ [nl]
                    ++ str_of "HASHTAGS: #c")).
Proof.
  destruct (hashtag_line_removed sample_now
              (str_of "TITLE: Foo" ++ [nl; nl] ++ str_of "Body" ++ [nl]
               ++ str_of "HASHTAGS: #a #b" ++ [nl] ++ str_of "Trailing" ++ [nl]
               ++ str_of "HASHTAGS: #c")
              (str_of "TITLE: Foo" ++ [nl; nl] ++ str_of "Body" ++ [nl])
              (str_of " ") (ch "#") (str_of "a #b")
              ([nl] ++ str_of "Trailing" ++ [nl] ++ str_of "HASHTAGS: #c")
              eq_refl eq_refl eq_refl eq_refl eq_refl eq_refl) as [H B].
  split; [exact H|].
  apply (B (str_of "Body" ++ [nl]) (str_of " ") (ch "#") (str_of "a #b")
           ([nl] ++ str_of "Trailing" ++ [nl] ++ str_of "HASHTAGS: #c"));
    reflexivity.
Defined.

Lemma zpad_length (w : nat) : forall n, length (zpad w n) = w.
Proof.
  induction w as [|w IH]; intros n; simpl; [reflexivity|].
  rewrite length_app, IH. simpl. lia.
Qed.

Lemma strftime_length (now : datetime) : length (strftime now) = 15.
Proof.
  unfold strftime. rewrite !length_app, !zpad_length. reflexivity.
Qed.

Lemma search_hashtags_none (raw : str) :
  find hashtags_marker raw = None -> search hashtags_re raw = None.
Proof.
  intros F. apply search_from_none. intros a b E pv.
  apply hashtags_no_marker. exact (find_from_none _ _ 0 F a b E).
Qed.

(** A response in which the text [TITLE:] does not occur has no title
    match. *)
Lemma search_title_none (raw : str) :
  find (str_of "TITLE:") raw = None -> search title_re raw = None.
Proof.
  intros F. apply search_from_none. intros a b E pv.
  unfold match_at, title_re. rewrite rmatch_cat.
  change (rmatch Bol (MState pv b None)
            (fun st1 => rmatch (Cat (lit (str_of "TITLE:"))
               (Cat (Star isspace) (Cat (Group (LazyPlus dot)) Eol))) st1 Some))
    with (if at_bol (MState pv b None)
          then match_at (Cat (lit (str_of "TITLE:"))
                 (Cat (Star isspace) (Cat (Group (LazyPlus dot)) Eol))) pv b
          else None).
  rewrite match_at_lit_none; [now destruct (at_bol _)|].
  exact (find_from_none _ _ 0 F a b E).
Qed.

(** C7, as stated, fails: with neither marker the body is not trimmed. *)
Lemma body_without_markers_not_trimmed :
  parse_article_response sample_now (str_of " x ")
  = (str_of "Article_20240307_090501", str_of " x ", [])
  /\ str_of " x " <> strip (str_of " x ").
Proof. split; [reflexivity|discriminate]. Qed.

(** C7, amended: parsing needs neither marker and always yields a title that
    is not empty.  Without a match of the title pattern the title is
    [Article_] followed by the fifteen characters of the clock reading,
    [YYYYmmdd_HHMMSS].  Without a [HASHTAGS:] marker there are no hashtags and
    the body is the content as the title step left it: trimmed after the
    removal of the title lines when the title pattern matched, and the raw
    response itself, not trimmed, when it did not. *)
Theorem parse_without_markers (now : datetime) (raw : str) :
  fst (fst (parse_article_response now raw)) <> []
  /\ (search title_re raw = None ->
      fst (fst (parse_article_response now raw))
        = str_of "Article_" ++ strftime now
      /\ length (strftime now) = 15)
  /\ (find hashtags_marker raw = None ->
      snd (parse_article_response now raw) = []
      /\ snd (fst (parse_article_response now raw))
         = match search title_re raw with
           | Some _ => strip (sub title_line_re [] raw)
           | None => raw
           end).
Proof.
  split; [|split].
  - rewrite parse_title. destruct (search title_re raw) as [m|].
    + destruct (strip (group1 m)); cbn [is_empty]; discriminate.
    + discriminate.
  - intros T. split; [|apply strftime_length].
    rewrite parse_title. now rewrite T.
  - intros F. split.
    + rewrite parse_hashtags. now rewrite (search_hashtags_none raw F).
    + rewrite parse_content. now rewrite (search_hashtags_none raw F).
Qed.

Lemma parse_without_markers_witness :
  (fst (fst (parse_article_response sample_now (str_of "Just text")))
     = str_of "Article_" ++ strftime sample_now
   /\ length (strftime sample_now) = 15)
  /\ (snd (parse_article_response sample_now (str_of "Just text")) = []
      /\ snd (fst (parse_article_response sample_now (str_of "Just text")))
         = match search title_re (str_of "Just text") with
           | Some _ => strip (sub title_line_re [] (str_of "Just text"))
           | None => str_of "Just text"
           end).
Proof.
  split.
  - apply (proj1 (proj2 (parse_without_markers sample_now (str_of "Just text")))).
    reflexivity.
  - apply (proj2 (proj2 (parse_without_markers sample_now (str_of "Just text")))).
    reflexivity.
Defined.

End ParseProperties.

(** ** sanitize_filename *)

Section Sanitize.

(** The first [re.sub] deletes the invalid characters. *)
Lemma sub_invalid (title : str) :
  sub invalid_re [] title = filter (fun c => negb (invalid_char c)) title.
Proof.
  unfold sub, invalid_re. generalize (@None char).
  induction title as [|c t IH]; intros pv; [reflexivity|].
  cbn [sub_from filter]. unfold match_at. cbn [rmatch rest].
  destruct (invalid_char c); cbn [negb rest length].
  - replace (S (length t) - length t) with 1 by lia. apply IH.
  - f_equal. apply IH.
Qed.

Lemma star_loop_spaces (g : option str) (s : str) :
  forall pv, exists pv',
    star_loop isspace g Some pv s = Some (MState pv' (lstrip s) g).
Proof.
  induction s as [|c t IH]; intros pv; cbn [star_loop lstrip].
  - eauto.
  - destruct (isspace c); [|eauto].
    destruct (IH (Some c)) as [pv' E]. rewrite E. cbn [orelse]. eauto.
Qed.

Lemma lstrip_le (s : str) : length (lstrip s) <= length s.
Proof.
  destruct (lstrip_split s) as [ws [E _]].
  apply (f_equal (@length _)) in E. rewrite length_app in E. lia.
Qed.

(** The second [re.sub]: outside a run of whitespace, and with the rest of a
    run still to drop. *)
Lemma sub_spaces_collapse (s : str) :
  (forall pv, sub_from spaces_re (str_of "_") 0 pv s = collapse false s)
  /\ (forall pv,
        sub_from spaces_re (str_of "_") (length s - length (lstrip s)) pv s
        = collapse true s).
Proof.
  induction s as [|c t [P Q]]; [split; reflexivity|].
  assert (P' : forall pv,
             sub_from spaces_re (str_of "_") 0 pv (c :: t)
             = collapse false (c :: t)).
  { intros pv. cbn [sub_from collapse]. unfold match_at, spaces_re.
    cbn [rmatch rest grp]. destruct (isspace c).
    - destruct (star_loop_spaces None t (Some c)) as [pv' E]. rewrite E.
      cbn [rest]. pose proof (lstrip_le t) as L.
      replace (length (c :: t) - length (lstrip t))
        with (S (length t - length (lstrip t))) by (cbn [length]; lia).
      cbn [str_of list_ascii_of_string map app]. f_equal. apply Q.
    - f_equal. apply P. }
  split; [exact P'|].
  intros pv. cbn [lstrip collapse]. destruct (isspace c) eqn:Hc.
  - pose proof (lstrip_le t) as L.
    replace (length (c :: t) - length (lstrip t))
      with (S (length t - length (lstrip t))) by (cbn [length]; lia).
    cbn [sub_from]. apply Q.
  - rewrite Nat.sub_diag. rewrite P'. cbn [collapse]. now rewrite Hc.
Qed.

(** What the two substitutions compute. *)
Lemma cleaned_direct (title : str) :
  cleaned title
  = collapse false (filter (fun c => negb (invalid_char c)) title).
Proof.
  unfold cleaned. rewrite sub_invalid. unfold sub.
  apply (proj1 (sub_spaces_collapse _)).
Qed.

Lemma collapse_le (s : str) : forall b, length (collapse b s) <= length s.
Proof.
  induction s as [|c t IH]; intros b; cbn [collapse]; [lia|].
  pose proof (IH true). pose proof (IH false).
  destruct (isspace c); [destruct b|]; cbn [length]; lia.
Qed.

Lemma cleaned_le (title : str) : length (cleaned title) <= length title.
Proof.
  rewrite cleaned_direct.
  pose proof (collapse_le (filter (fun c => negb (invalid_char c)) title) false).
  pose proof (filter_length_le (fun c => negb (invalid_char c)) title). lia.
Qed.

(** C8, as stated, fails: a title of 101 characters, the last two of them
    question marks, comes out 99 characters long. *)
Lemma long_title_shorter_than_limit :
  length (repeat (ch "a") 99 ++ str_of "??") = 101
  /\ sanitize_filename (repeat (ch "a") 99 ++ str_of "??") = repeat (ch "a") 99
  /\ length (sanitize_filename (repeat (ch "a") 99 ++ str_of "??")) = 99.
Proof. repeat split. Qed.

(** C8, amended: the limit applies to the title after the invalid characters
    are deleted and each run of whitespace has become one underscore.  When
    that text is longer than 100 characters the result is its first 100
    characters; otherwise the result is that text, which is never longer than
    the title. *)
Theorem sanitize_truncates (title : str) :
  cleaned title
    = collapse false (filter (fun c => negb (invalid_char c)) title)
  /\ (100 < length (cleaned title) ->
      sanitize_filename title = firstn 100 (cleaned title)
      /\ length (sanitize_filename title) = 100)
  /\ (length (cleaned title) <= 100 ->
      sanitize_filename title = cleaned title)
  /\ length (sanitize_filename title) <= 100
  /\ length (cleaned title) <= length title.
Proof.
  split; [apply cleaned_direct|].
  unfold sanitize_filename. fold (cleaned title).
  destruct (Nat.ltb_spec 100 (length (cleaned title))) as [L|L].
  - pose proof (firstn_length_le (cleaned title) (n := 100)) as F.
    assert (F0 : length (firstn 100 (cleaned title)) = 100) by (apply F; lia).
    split; [auto|]. split; [lia|]. split; [lia|apply cleaned_le].
  - split; [lia|]. split; [auto|]. split; [lia|apply cleaned_le].
Qed.

Lemma sanitize_truncates_witness :
  (sanitize_filename (repeat (ch "a") 60 ++ str_of " ? " ++ repeat (ch "b") 60)
   = firstn 100 (cleaned (repeat (ch "a") 60 ++ str_of " ? " ++ repeat (ch "b") 60))
   /\ length (sanitize_filename
                (repeat (ch "a") 60 ++ str_of " ? " ++ repeat (ch "b") 60)) = 100)
  /\ sanitize_filename (str_of "Ray vs Triton: A Deep Dive?")
     = cleaned (str_of "Ray vs Triton: A Deep Dive?").
Proof.
  split.
  - apply (proj1 (proj2 (sanitize_truncates _))). vm_compute. lia.
  - apply (proj1 (proj2 (proj2 (sanitize_truncates _)))). vm_compute. lia.
Defined.

End Sanitize.

(** ** main *)

Section MainFacts.

Import Script.

Variable World : Type.
Variable sv : services World.

Lemma download_events (evs : list event) :
  forallb is_download evs = true ->
  existsb is_generate evs = false /\ existsb is_write evs = false
  /\ existsb generation_failed evs = false /\ existsb write_failed evs = false.
Proof.
  induction evs as [|e evs IH]; [auto|].
  cbn [forallb existsb]. intros H. apply andb_prop in H. destruct H as [He H].
  destruct (IH H) as (A & B & C & D). rewrite A, B, C, D.
  destruct e; try discriminate; auto.
Qed.

Lemma successful_snippets_app (a b : list event) :
  successful_snippets (a ++ b) = successful_snippets a ++ successful_snippets b.
Proof.
  induction a as [|e a IH]; [reflexivity|].
  destruct e as [v l [t|]| | | |]; cbn [app successful_snippets];
    now rewrite IH.
Qed.

(** A log can be read piece by piece, unless the cut falls between a fetch
    and the sleep that raised after it. *)
Lemma obtained_snippets_app (a b : list event) :
  (forall s more, b <> Sleep s false :: more) ->
  obtained_snippets (a ++ b) = obtained_snippets a ++ obtained_snippets b.
Proof.
  intros Hb. induction a as [|e a IH]; [reflexivity|].
  destruct e as [v l [t|]|s b0| | |]; cbn [app obtained_snippets];
    try exact IH.
  destruct a as [|e' a].
  - cbn [app obtained_snippets].
    destruct b as [|[v' l' r'|s [|]| | |] b]; try reflexivity.
    exfalso. exact (Hb s b eq_refl).
  - cbn [app] in *. rewrite IH.
    destruct e' as [v' l' r'|s [|]| | |]; reflexivity.
Qed.

(** Every transcript obtained comes from a fetch that succeeded. *)
Lemma obtained_le_successful (evs : list event) :
  length (obtained_snippets evs) <= length (successful_snippets evs).
Proof.
  induction evs as [|e evs IH]; [cbn; lia|].
  destruct e as [v l [t|]|s b| | |];
    cbn [obtained_snippets successful_snippets]; try exact IH.
  destruct evs as [|[v' l' r'|s [|]| | |] evs]; cbn [length] in *; lia.
Qed.

Lemma snippets_fetch_succeeded (evs : list event) :
  successful_snippets evs <> [] -> existsb fetch_succeeded evs = true.
Proof.
  induction evs as [|e evs IH]; [intros H; now contradiction H|].
  destruct e as [v l [t|]| | | |]; cbn; auto.
Qed.

Lemma sleeps_none (d : Z) (evs : list event) :
  Forall (sleep_of d) evs -> (d <= 0)%Z -> filter is_sleep evs = [].
Proof.
  induction 1 as [|e evs He _ IH]; intros Hd; [reflexivity|].
  destruct e; cbn [filter is_sleep]; try (apply IH; assumption).
  cbn in He. lia.
Qed.

Lemma sleep_of_either (delay d : Z) (evs : list event) :
  d = delay \/ d = 0%Z ->
  Forall (sleep_of d) evs -> Forall (sleep_of delay) evs.
Proof.
  intros Hd. apply Forall_impl. intros [v l r|s b| | |]; cbn; trivial.
  intros [-> P]. destruct Hd as [-> | ->]; [auto|lia].
Qed.

Lemma Forall_fetch_of_more (url : str) (urls : list str) (evs : list event) :
  Forall (fetch_of urls) evs -> Forall (fetch_of (url :: urls)) evs.
Proof.
  apply Forall_impl. intros [v l r| | | |]; cbn; trivial.
  intros [(u & Hu & G) L]. split; [|exact L]. exists u. split; [now right|].
  exact G.
Qed.

Ltac download_facts P :=
  split; [do 2 eexists; reflexivity|];
  split; [reflexivity|];
  split; [reflexivity|];
  split; [cbn; lia|];
  split; [cbn; lia|];
  split; [cbn; lia|];
  split;
  [ repeat (apply Forall_cons; [cbn; first [exact I | split; [reflexivity|exact P]]|]);
    apply Forall_nil
  | intros urls url Hin G;
    repeat (apply Forall_cons;
            [cbn; first [exact I | split; [exists url; split; assumption|auto]]|]);
    apply Forall_nil ].

(** The log of one download: the fetch in English comes first; a transcript
    is returned exactly when a fetch succeeded and the sleep, if there was
    one, did not raise. *)
Lemma download_transcript_log (video_id : option str) (delay : Z)
  (w : World) (tr : list event) :
  exists r w' evs,
    download_transcript sv video_id delay (w, tr) = (r, (w', tr ++ evs))
    /\ (exists r0 more,
          evs = FetchTranscript video_id (Some english) r0 :: more)
    /\ forallb is_download evs = true
    /\ map (join (str_of " ")) (obtained_snippets evs)
       = match r with Some t => [t] | None => [] end
    /\ length (filter is_fetch evs) <= 2
    /\ length (filter is_sleep evs) <= length (successful_snippets evs)
    /\ length (successful_snippets evs) <= 1
    /\ Forall (sleep_of delay) evs
    /\ (forall urls url,
          In url urls -> get_video_id url = Return video_id ->
          Forall (fetch_of urls) evs).
Proof.
  unfold download_transcript, fetch, sleep, bind, call, emit, ret.
  cbn [fst snd].
  destruct (yt_fetch sv w video_id (Some english)) as [[t|] w1];
    cbn [fst snd].
  - destruct (Z.ltb_spec 0 delay) as [P|P]; cbn [fst snd].
    + destruct (os_sleep sv w1 delay) as [[|] w2]; cbn [fst snd];
        rewrite <- ?app_assoc; cbn [app];
        do 3 eexists; (split; [reflexivity|]); download_facts P.
    + do 3 eexists; (split; [reflexivity|]); download_facts P.
  - destruct (yt_fetch sv w1 video_id None) as [[t|] w2]; cbn [fst snd].
    + destruct (Z.ltb_spec 0 delay) as [P|P]; cbn [fst snd].
      * destruct (os_sleep sv w2 delay) as [[|] w3]; cbn [fst snd];
          rewrite <- ?app_assoc; cbn [app];
          do 3 eexists; (split; [reflexivity|]); download_facts P.
      * rewrite <- ?app_assoc; cbn [app];
          do 3 eexists; (split; [reflexivity|]); download_facts I.
    + rewrite <- ?app_assoc; cbn [app];
        do 3 eexists; (split; [reflexivity|]); download_facts I.
Qed.

(** The log of the download loop. *)
Lemma download_all_log (delay : Z) (n : nat) (urls : list str) :
  forall i transcripts w tr,
  exists ts w' evs,
    download_all sv delay n i urls transcripts (w, tr) = (ts, (w', tr ++ evs))
    /\ forallb is_download evs = true
    /\ ts = transcripts ++ map (join (str_of " ")) (obtained_snippets evs)
    /\ length (filter is_fetch evs) <= 2 * length urls
    /\ length (filter is_sleep evs) <= n - i
    /\ length (filter is_sleep evs) <= length (successful_snippets evs)
    /\ length (successful_snippets evs) <= length urls
    /\ Forall (sleep_of delay) evs
    /\ Forall (fetch_of urls) evs
    /\ (forall url video_id,
          In url urls -> get_video_id url = Return video_id ->
          exists r0, In (FetchTranscript video_id (Some english) r0) evs)
    /\ (forall s b more, evs <> Sleep s b :: more).
Proof.
  induction urls as [|url more IH]; intros i transcripts w tr.
  - exists transcripts, w, []. cbn. rewrite !app_nil_r.
    split; [reflexivity|]. split; [reflexivity|]. split; [reflexivity|].
    split; [lia|]. split; [lia|]. split; [lia|]. split; [lia|].
    split; [constructor|]. split; [constructor|].
    split; [intros ? ? []|]. discriminate.
  - cbn [download_all]. destruct (get_video_id url) as [vid|msg] eqn:G.
    + unfold bind.
      set (d := if (i <? n)%nat then delay else 0%Z).
      destruct (download_transcript_log vid d w tr)
        as (r & w1 & evs1 & E1 & (r0 & more1 & H1) & D1 & O1 & F1 & S1 & U1
            & SO1 & FO1).
      rewrite E1.
      assert (Hstep : forall ts0,
        ts0 = transcripts
              ++ map (join (str_of " ")) (obtained_snippets evs1) ->
        exists ts w' evs,
          download_all sv delay n (S i) more ts0 (w1, tr ++ evs1)
            = (ts, (w', tr ++ evs))
          /\ forallb is_download evs = true
          /\ ts = transcripts
                  ++ map (join (str_of " ")) (obtained_snippets evs)
          /\ length (filter is_fetch evs) <= 2 * length (url :: more)
          /\ length (filter is_sleep evs) <= n - i
          /\ length (filter is_sleep evs) <= length (successful_snippets evs)
          /\ length (successful_snippets evs) <= length (url :: more)
          /\ Forall (sleep_of delay) evs
          /\ Forall (fetch_of (url :: more)) evs
          /\ (forall url0 video_id,
                In url0 (url :: more) -> get_video_id url0 = Return video_id ->
                exists r1, In (FetchTranscript video_id (Some english) r1) evs)
          /\ (forall s b more0, evs <> Sleep s b :: more0)).
      { intros ts0 T0.
        destruct (IH (S i) ts0 w1 (tr ++ evs1))
          as (ts & w2 & evs2 & E2 & D2 & T2 & NF & NS & NS' & NU & FS & FF
              & FI & HD).
        exists ts, w2, (evs1 ++ evs2). rewrite app_assoc.
        split; [exact E2|].
        assert (LS : length (filter is_sleep evs1) + (n - S i) <= n - i).
        { subst d. destruct (Nat.ltb_spec i n); [lia|].
          rewrite (sleeps_none 0 evs1 SO1) by lia. cbn [length]. lia. }
        rewrite forallb_app, !filter_app, successful_snippets_app,
          !length_app, D1, D2.
        rewrite (obtained_snippets_app evs1 evs2)
          by (intros s m; apply HD).
        split; [reflexivity|].
        split; [rewrite T2, T0, map_app, app_assoc; reflexivity|].
        split; [cbn [length]; lia|]. split; [lia|]. split; [lia|].
        split; [cbn [length]; lia|].
        split.
        { apply Forall_app. split; [|exact FS].
          apply (sleep_of_either delay d); [|exact SO1].
          subst d. destruct (i <? n)%nat; auto. }
        split.
        { apply Forall_app. split; [|now apply Forall_fetch_of_more].
          apply (FO1 (url :: more) url); [now left|exact G]. }
        split.
        - intros url0 vid0 [<- | Hin] G0.
          + rewrite G in G0. injection G0 as <-. exists r0.
            rewrite H1. now left.
          + destruct (FI url0 vid0 Hin G0) as [r1 I1]. exists r1.
            apply in_or_app. now right.
        - intros s b m. rewrite H1. discriminate. }
      destruct r as [transcript|]; apply Hstep.
      * now rewrite O1.
      * now rewrite O1, app_nil_r.
    + destruct (IH (S i) transcripts w tr)
        as (ts & w3 & evs & E & D & T & NF & NS & NS' & NU & FS & FF & FI
            & HD).
      exists ts, w3, evs. cbn [length].
      split; [exact E|]. split; [exact D|]. split; [exact T|].
      split; [lia|]. split; [lia|]. split; [lia|]. split; [lia|].
      split; [exact FS|]. split; [now apply Forall_fetch_of_more|].
      split; [|exact HD].
      intros url0 vid0 [<- | Hin] G0; [congruence|eauto].
Qed.

(** A run that argparse lets through, phase by phase. *)
Lemma run_shape (c : cmdline) (w : World) (args : namespace) :
  parse_args c = Some args ->
  (usable_urls (arg_urls args) = [] /\ run sv c w = (1%Z, []))
  \/ (usable_urls (arg_urls args) <> []
      /\ exists ts w1 evs1,
        download_all sv (arg_delay args)
          (length (usable_urls (arg_urls args))) 1
          (usable_urls (arg_urls args)) [] (w, []) = (ts, (w1, evs1))
        /\ ((ts = [] /\ run sv c w = (1%Z, evs1))
            \/ (ts <> [] /\ falsy (getenv_key sv w1) = true
                /\ run sv c w
                   = (1%Z, evs1 ++ [ReadCredential (getenv_key sv w1)]))
            \/ (ts <> []
                /\ exists key chunks w2,
                  getenv_key sv w1 = Some key /\ key <> []
                  /\ genai_stream sv w1 key ts (arg_context args)
                       (arg_output_size args) (arg_enable_research args)
                     = (chunks, w2)
                  /\ match chunks with
                     | None =>
                         run sv c w
                         = (1%Z, evs1 ++ [ReadCredential (Some key);
                                          request_of args key ts None])
                     | Some cs =>
                         exists title content hashtags ok w3,
                           parse_article_response (clock sv w2)
                             (concat_chunks cs) = (title, content, hashtags)
                           /\ fs_write sv w2 (article_path title)
                                (article_text title content hashtags)
                              = (ok, w3)
                           /\ run sv c w
                              = ((if ok then 0 else 1)%Z,
                                 evs1 ++ [ReadCredential (Some key);
                                          request_of args key ts (Some cs);
                                          WriteArticle (article_path title)
                                            (article_text title content
                                               hashtags) ok])
                     end))).
Proof.
  intros P. remember (run sv c w) as res eqn:HR.
  unfold run, main in HR. rewrite P in HR.
  destruct (usable_urls (arg_urls args)) as [|u us] eqn:U; [left; auto|].
  right. split; [discriminate|]. cbn [is_empty_list] in HR.
  unfold bind at 1 in HR.
  destruct (download_all sv (arg_delay args) (length (u :: us)) 1 (u :: us)
              [] (w, [])) as [ts [w1 evs1]] eqn:E1.
  try rewrite E1 in HR. exists ts, w1, evs1. split; [reflexivity|].
  destruct ts as [|t ts]; cbn [is_empty_list] in HR; [left; auto|].
  right. unfold bind at 1 in HR.
  unfold generate_article, bind, look, call, emit, ret in HR.
  cbn [fst snd] in HR.
  destruct (getenv_key sv w1) as [key|] eqn:K; cbn [falsy] in HR |- *.
  - destruct key as [|k key]; cbn [is_empty] in HR |- *.
    + left. split; [discriminate|]. split; [reflexivity|]. exact HR.
    + right. split; [discriminate|]. cbn [fst snd] in HR.
      destruct (genai_stream sv w1 (k :: key) (t :: ts) (arg_context args)
                  (arg_output_size args) (arg_enable_research args))
        as [[cs|] w2] eqn:G; cbn [fst snd] in HR.
      * exists (k :: key), (Some cs), w2.
        split; [reflexivity|]. split; [discriminate|]. split; [exact G|].
        destruct (parse_article_response (clock sv w2) (concat_chunks cs))
          as [[title content] hashtags] eqn:PA.
        try rewrite PA in HR. cbn [fst snd] in HR.
        fold (article_path title) in HR.
        destruct (fs_write sv w2 (article_path title)
                    (article_text title content hashtags)) as [ok w3] eqn:FW.
        try rewrite FW in HR.
        exists title, content, hashtags, ok, w3.
        split; [reflexivity|]. split; [exact FW|].
        cbn [fst snd] in HR. rewrite <- !app_assoc in HR. cbn [app] in HR.
        unfold request_of. now destruct ok.
      * exists (k :: key), None, w2.
        split; [reflexivity|]. split; [discriminate|]. split; [exact G|].
        rewrite <- !app_assoc in HR. exact HR.
  - left. split; [discriminate|]. split; [reflexivity|]. exact HR.
Qed.

(** A run that argparse lets through: the log of the download loop, then
    one of the four endings. *)
Lemma run_phases (c : cmdline) (w : World) (args : namespace) :
  parse_args c = Some args ->
  exists evs1 after,
    snd (run sv c w) = evs1 ++ after
    /\ forallb is_download evs1 = true
    /\ length (filter is_fetch evs1)
       <= 2 * length (usable_urls (arg_urls args))
    /\ length (filter is_sleep evs1)
       <= length (usable_urls (arg_urls args)) - 1
    /\ length (filter is_sleep evs1) <= length (successful_snippets evs1)
    /\ length (successful_snippets evs1)
       <= length (usable_urls (arg_urls args))
    /\ Forall (sleep_of (arg_delay args)) evs1
    /\ Forall (fetch_of (usable_urls (arg_urls args))) evs1
    /\ after_downloads args
         (map (join (str_of " ")) (obtained_snippets evs1)) after
         (fst (run sv c w)).
Proof.
  intros P.
  destruct (run_shape c w args P)
    as [[U R] | (U & ts & w1 & evs1 & E & H)].
  - exists [], []. rewrite R, U. cbn.
    repeat (split; [first [reflexivity | lia | constructor]|]).
    left. auto.
  - destruct (download_all_log (arg_delay args)
                (length (usable_urls (arg_urls args)))
                (usable_urls (arg_urls args)) 1 [] w [])
      as (ts' & w1' & evs & E' & D & T & NF & NS & NS' & NU & FS & FF & _).
    rewrite E in E'. cbn [app] in E', T. injection E' as <- <- <-.
    subst ts.
    destruct H as [[T0 R] | [(T0 & K & R) | (T0 & key & chunks & w2 & K & Kn
                                             & G & R)]].
    + exists evs1, []. rewrite R. cbn [fst snd].
      split; [now rewrite app_nil_r|]. repeat (split; [assumption|]).
      left. auto.
    + exists evs1, [ReadCredential (getenv_key sv w1)]. rewrite R.
      cbn [fst snd]. split; [reflexivity|]. repeat (split; [assumption|]).
      right. left. split; [exact T0|]. eauto.
    + destruct chunks as [cs|].
      * destruct R as (title & content & hashtags & ok & w3 & PA & FW & R).
        exists evs1, [ReadCredential (Some key);
                      request_of args key
                        (map (join (str_of " ")) (obtained_snippets evs1))
                        (Some cs);
                      WriteArticle (article_path title)
                        (article_text title content hashtags) ok].
        rewrite R. cbn [fst snd]. split; [reflexivity|].
        repeat (split; [assumption|]).
        right. right. right. split; [exact T0|].
        exists key, cs, (clock sv w2), title, content, hashtags, ok. auto.
      * exists evs1, [ReadCredential (Some key);
                      request_of args key
                        (map (join (str_of " ")) (obtained_snippets evs1))
                        None].
        rewrite R. cbn [fst snd]. split; [reflexivity|].
        repeat (split; [assumption|]).
        right. right. left. split; [exact T0|]. exists key. auto.
Qed.

Lemma run_rejected (c : cmdline) (w : World) :
  parse_args c = None -> run sv c w = (2%Z, []).
Proof. intros P. unfold run, main. now rewrite P. Qed.

(** What the four endings hold. *)
Lemma after_downloads_facts (args : namespace) (ts : list str)
  (after : list event) (code : Z) :
  after_downloads args ts after code ->
  existsb is_download after = false
  /\ successful_snippets after = []
  /\ filter is_sleep after = []
  /\ filter is_fetch after = []
  /\ length (filter is_generate after) <= 1
  /\ length (filter is_write after) <= 1
  /\ (existsb is_write after = true -> existsb generation_answered after = true)
  /\ (existsb is_generate after = true -> ts <> [])
  /\ (code = 0%Z <-> existsb written_ok after = true).
Proof.
  intros [(-> & -> & ->) | [(T & k & K & -> & ->) | [(T & key & Kn & -> & ->)
    | (T & key & cs & now & ti & co & ha & ok & Kn & PA & -> & ->)]]];
    cbn; repeat split; auto; try discriminate; try lia.
  - now destruct ok.
  - now destruct ok.
Qed.

(** Nothing after the loop changes which transcripts were obtained. *)
Lemma after_downloads_obtained (args : namespace) (ts : list str)
  (after : list event) (code : Z) :
  after_downloads args ts after code ->
  forall evs, obtained_snippets (evs ++ after) = obtained_snippets evs.
Proof.
  intros [(-> & _) | [(_ & k & _ & -> & _) | [(_ & key & _ & -> & _)
    | (_ & key & cs & now & ti & co & ha & ok & _ & _ & -> & _)]]] evs;
    (rewrite obtained_snippets_app by (intros; discriminate));
    cbn; apply app_nil_r.
Qed.

End MainFacts.

Section MainProperties.

Import Script.




(** C9, as stated, fails: without [--url-1] no usable URL is given, yet the
    exit status is 2, not 1; when everything went well up to the writing of
    the file and that fails, the exit status is 1; and when the one fetch
    that succeeded is followed by a [time.sleep] that raises, its transcript
    is dropped and the exit status is 1 although a fetch succeeded and no
    generation was tried. *)
Lemma status_two_without_url_1 :
  fst (run (sample_services (Some (str_of "key")) None true)
         (sample_cmdline None) tt) = 2%Z
  /\ run (sample_services (Some (str_of "key"))
            (Some [Some (str_of "TITLE: A"); Some (nl :: str_of "text")]) false)
         (sample_cmdline (Some (str_of "dQw4w9WgXcQ"))) tt
     = (1%Z,
        [FetchTranscript (Some (str_of "dQw4w9WgXcQ")) (Some english)
           (Some [str_of "hello"; str_of "world"]);
         ReadCredential (Some (str_of "key"));
         GenerateRequest (str_of "key") [str_of "hello world"] []
           (str_of "MEDIUM") true
           (Some [Some (str_of "TITLE: A"); Some (nl :: str_of "text")]);
         WriteArticle (str_of "articles/A.md")
           (str_of "# A" ++ [nl; nl] ++ str_of "text") false])
  /\ (let '(code, trace) :=
        run (overflow_services (Some (str_of "key"))
               (Some [Some (str_of "TITLE: A")]) true)
            (CmdLine (Some (str_of "dQw4w9WgXcQ")) [str_of "abcdefghijk"] []
               (str_of "MEDIUM") true 10000000000) tt in
      code = 1%Z
      /\ trace
         = [FetchTranscript (Some (str_of "dQw4w9WgXcQ")) (Some english)
              (Some [str_of "hello"; str_of "world"]);
            Sleep 10000000000 false;
            FetchTranscript (Some (str_of "abcdefghijk")) (Some english) None;
            FetchTranscript (Some (str_of "abcdefghijk")) None None]
      /\ existsb fetch_succeeded trace = true
      /\ existsb generation_failed trace = false).
Proof. split; [|split]; [reflexivity|reflexivity|repeat split]. Qed.

(** C9, amended: when argparse rejects the command line ([--url-1] missing,
    [--output-size] not among the choices) the exit status is 2 and nothing
    else happens.  Otherwise the exit status is 0 or 1, and it is 1 exactly
    when no usable URL is given, when no transcript is obtained (no fetch
    succeeds, or each fetch that succeeds is followed by a sleep that
    raises), when the generation fails (the missing credential included), or
    when the article file cannot be written. *)
Theorem exit_status (World : Type) (sv : services World) (c : cmdline)
  (w : World) :
  (parse_args c = None -> run sv c w = (2%Z, []))
  /\ (forall args, parse_args c = Some args ->
      (fst (run sv c w) = 0%Z \/ fst (run sv c w) = 1%Z)
      /\ (fst (run sv c w) = 1%Z <->
          usable_urls (arg_urls args) = []
          \/ obtained_snippets (snd (run sv c w)) = []
          \/ existsb generation_failed (snd (run sv c w)) = true
          \/ existsb write_failed (snd (run sv c w)) = true)).
Proof.
  split.
  - intros P. unfold run, main. now rewrite P.
  - intros args P.
    destruct (run_phases World sv c w args P)
      as (evs1 & after & E & D & _ & _ & _ & NU & _ & _ & A).
    destruct (download_events evs1 D) as (_ & _ & GF1 & WF1).
    pose proof (obtained_le_successful evs1) as OS.
    rewrite E, (after_downloads_obtained args _ _ _ A evs1),
      !existsb_app, GF1, WF1. cbn [orb].
    assert (N : forall l : list (list str),
              map (join (str_of " ")) l = [] <-> l = []).
    { intros [|x l]; cbn; split; trivial; discriminate. }
    destruct A as [(-> & T & C) | [(T & k & Kf & -> & C)
      | [(T & key & Kn & -> & C)
      | (T & key & cs & now & ti & co & ha & ok & Kn & PA & -> & C)]]];
      rewrite C.
    + apply N in T. split; [now right|]. split; auto.
    + cbn [existsb generation_failed orb]. rewrite Kf.
      split; [now right|]. split; auto.
    + unfold request_of. cbn [existsb generation_failed orb].
      rewrite orb_true_r. split; [now right|]. split; auto.
    + assert (Ke : is_empty key = false) by (now destruct key).
      unfold request_of. cbn [existsb generation_failed write_failed falsy orb].
      rewrite Ke. cbn [orb].
      assert (U : usable_urls (arg_urls args) <> []).
      { intros U. rewrite U in NU. cbn [length] in NU.
        destruct (obtained_snippets evs1); [now apply T|].
        cbn [length] in OS. lia. }
      destruct ok.
      * split; [now left|]. split; [discriminate|].
        intros [H | [H | [H | H]]]; try discriminate; [now apply U in H|].
        rewrite H in T. now contradiction T.
      * split; [now right|]. split; auto.
Qed.

Lemma exit_status_witness :
  run (sample_services (Some (str_of "key")) None true)
      (sample_cmdline None) tt = (2%Z, [])
  /\ (fst (run (sample_services (Some (str_of "key"))
                  (Some [Some (str_of "TITLE: A")]) true)
               (sample_cmdline (Some (str_of "dQw4w9WgXcQ"))) tt) = 0%Z
      \/ fst (run (sample_services (Some (str_of "key"))
                     (Some [Some (str_of "TITLE: A")]) true)
                  (sample_cmdline (Some (str_of "dQw4w9WgXcQ"))) tt) = 1%Z).
Proof.
  split.
  - apply (proj1 (exit_status unit _ (sample_cmdline None) tt)). reflexivity.
  - apply (proj2 (exit_status unit
                    (sample_services (Some (str_of "key"))
                       (Some [Some (str_of "TITLE: A")]) true)
                    (sample_cmdline (Some (str_of "dQw4w9WgXcQ"))) tt)
             (Namespace
                (str_of "dQw4w9WgXcQ" :: [[]; []; []; []; []; []; []; []; []])
                [] (str_of "MEDIUM") true 15)).
    reflexivity.
Defined.

End MainProperties.

(** * Further properties *)

(** ** get_video_id *)

Section MoreVideoId.

(** X1: [get_video_id] returns [None] exactly on a blank reference: for a
    reference with a character that is not whitespace it returns an
    identifier or raises, never [None]. *)
Theorem none_only_for_blank (url : str) :
  get_video_id url = Return None <-> forallb isspace url = true.
Proof.
  rewrite get_video_id_direct, blank_test.
  destruct (forallb isspace url); [tauto|].
  destruct (find_at watch_at url).
  - split; discriminate.
  - destruct (length (strip url) =? 11)%nat; split; discriminate.
Qed.

Lemma marker_before_watch (s : str) :
  marker_at s = None -> watch_at s = None.
Proof.
  unfold marker_at, watch_at, after_literal.
  destruct (strip_prefix (str_of "v=") s); [discriminate|].
  cbn [orelse]. now intros ->.
Qed.

Lemma no_marker_no_match (url : str) :
  after_first_marker url = None -> find_at watch_at url = None.
Proof.
  unfold after_first_marker. rewrite !find_at_none.
  intros H a b E. apply marker_before_watch. exact (H a b E).
Qed.

(** X2: on a reference that is not blank and has neither ['v='] nor ['/']
    in it, only the length of the trimmed reference decides: with eleven
    characters the trimmed reference is returned, whatever its characters,
    and otherwise [ValueError] is raised with the untrimmed reference in the
    message. *)
Theorem no_url_structure_length_decides (url : str) :
  after_first_marker url = None -> forallb isspace url = false ->
  get_video_id url
  = if (length (strip url) =? 11)%nat then Return (Some (strip url))
    else RaiseValueError (could_not_extract url).
Proof.
  intros M B. rewrite get_video_id_direct, blank_test, B.
  now rewrite (no_marker_no_match url M).
Qed.

Lemma no_url_structure_length_decides_witness :
  get_video_id (str_of " hello world ")
  = if (length (strip (str_of " hello world ")) =? 11)%nat
    then Return (Some (strip (str_of " hello world ")))
    else RaiseValueError (could_not_extract (str_of " hello world ")).
Proof.
  apply (no_url_structure_length_decides (str_of " hello world "));
    reflexivity.
Defined.

Lemma marker_needs_slash_or_equals (c : char) (s : str) :
  marker_at (c :: s) <> None ->
  c = ch "/" \/ (c = ch "v" /\ exists t, s = ch "=" :: t).
Proof.
  unfold marker_at. cbn [str_of list_ascii_of_string map strip_prefix].
  destruct (N.eqb_spec (ch "v") c) as [<-|_].
  - destruct s as [|d t].
    + cbn [orelse]. destruct (N.eqb_spec (ch "/") (ch "v")); [discriminate|].
      intros H. now contradiction H.
    + destruct (N.eqb_spec (ch "=") d) as [<-|_]; [eauto|].
      cbn [orelse]. destruct (N.eqb_spec (ch "/") (ch "v")); [discriminate|].
      intros H. now contradiction H.
  - cbn [orelse]. destruct (N.eqb_spec (ch "/") c) as [<-|_]; [auto|].
    intros H. now contradiction H.
Qed.

(** Whitespace and identifier characters do not make a marker. *)
Lemma plain_text_no_marker (s : str) :
  forallb (fun c => isspace c || idchar c) s = true ->
  after_first_marker s = None.
Proof.
  intros H. unfold after_first_marker. apply find_at_none. intros a b E.
  destruct b as [|c b]; [reflexivity|].
  destruct (marker_at (c :: b)) eqn:M; [exfalso|reflexivity].
  subst s. rewrite forallb_app in H. apply andb_prop in H.
  destruct H as [_ H]. cbn [forallb] in H. apply andb_prop in H.
  destruct H as [Hc Hb].
  destruct (marker_needs_slash_or_equals c b) as [-> | [-> [t ->]]].
  - rewrite M. discriminate.
  - discriminate Hc.
  - cbn [forallb] in Hb. apply andb_prop in Hb. destruct Hb as [Hd _].
    discriminate Hd.
Qed.

(** X3: an identifier of eleven characters of [[0-9A-Za-z_-]] with
    whitespace around it is returned without the whitespace. *)
Theorem padded_identifier_trimmed (before x after : str) :
  forallb isspace before = true -> forallb isspace after = true ->
  length x = 11 -> forallb idchar x = true ->
  get_video_id (before ++ x ++ after) = Return (Some x).
Proof.
  intros Hb Ha L I.
  assert (S : strip (before ++ x ++ after) = x).
  { unfold strip. rewrite (lstrip_spaces before _ Hb).
    destruct x as [|c x]; [discriminate|].
    assert (Ic : isspace c = false).
    { cbn [forallb] in I. apply andb_prop in I.
      now apply idchar_not_space. }
    cbn [app]. rewrite (lstrip_head c _ Ic).
    change (c :: x ++ after) with ((c :: x) ++ after).
    rewrite (rstrip_spaces _ _ Ha).
    pose proof (strip_no_space (c :: x) (idchars_no_space _ I)) as N.
    unfold strip in N. now rewrite (lstrip_head c _ Ic) in N. }
  assert (M : after_first_marker (before ++ x ++ after) = None).
  { apply plain_text_no_marker. rewrite !forallb_app.
    apply andb_true_intro. split; [|apply andb_true_intro; split].
    - apply forallb_forall. intros c Hc. rewrite forallb_forall in Hb.
      now rewrite (Hb c Hc).
    - apply forallb_forall. intros c Hc. rewrite forallb_forall in I.
      rewrite (I c Hc). apply orb_true_r.
    - apply forallb_forall. intros c Hc. rewrite forallb_forall in Ha.
      now rewrite (Ha c Hc). }
  assert (B : forallb isspace (before ++ x ++ after) = false).
  { destruct (forallb isspace (before ++ x ++ after)) eqn:B; [|reflexivity].
    apply strip_all_space in B. rewrite S in B. subst x. discriminate. }
  rewrite get_video_id_direct, blank_test, B, (no_marker_no_match _ M).
  now rewrite S, L.
Qed.

Lemma padded_identifier_trimmed_witness :
  get_video_id (str_of "  " ++ str_of "dQw4w9WgXcQ" ++ [nl])
  = Return (Some (str_of "dQw4w9WgXcQ")).
Proof.
  apply (padded_identifier_trimmed (str_of "  ") (str_of "dQw4w9WgXcQ") [nl]);
    reflexivity.
Defined.

End MoreVideoId.

(** ** parse_article_response *)

Section MoreParse.

Lemma not_space_dot (c : char) : isspace c = false -> dot c = true.
Proof.
  intros H. unfold dot. destruct (N.eqb_spec c nl) as [->|]; [|reflexivity].
  discriminate H.
Qed.

Lemma rmatch_bol (st : mstate) (k : mstate -> option mstate) :
  rmatch Bol st k = if at_bol st then k st else None.
Proof. reflexivity. Qed.

Lemma match_at_bol_lit_none (p : str) (r : regex) (pv : option char)
  (s : str) :
  strip_prefix p s = None -> match_at (Cat Bol (Cat (lit p) r)) pv s = None.
Proof.
  intros H. unfold match_at. rewrite rmatch_cat.
  change (rmatch Bol (MState pv s None)
            (fun st1 => rmatch (Cat (lit p) r) st1 Some))
    with (if at_bol (MState pv s None)
          then match_at (Cat (lit p) r) pv s else None).
  rewrite (match_at_lit_none p r pv s H). now destruct (at_bol _).
Qed.

(** What [title_re] matches at a [TITLE:] at the start of a line. *)
Lemma match_title (pre ws : str) (c : char) (body tail : str) :
  starts_line pre = true ->
  forallb isspace ws = true -> isspace c = false ->
  forallb dot body = true -> line_end tail = true ->
  exists st,
    match_at title_re (prev_after None pre)
      (title_marker ++ ws ++ c :: body ++ tail) = Some st
    /\ rest st = tail /\ grp st = Some (c :: body).
Proof.
  intros Hs Hws Hc Hd He. eexists. split.
  - unfold match_at, title_re. fold title_marker.
    rewrite rmatch_cat, rmatch_bol. unfold at_bol. cbn [prev].
    fold (starts_line pre). rewrite Hs, rmatch_cat, rmatch_lit. cbn [rest].
    rewrite strip_prefix_app, rmatch_cat. cbn [rmatch rest prev grp].
    apply star_loop_longest; [assumption|assumption|].
    apply (group_lazy_line dot _ c body tail); trivial.
    now apply not_space_dot.
  - split; reflexivity.
Qed.

Lemma match_title_line (pre ws : str) (c : char) (body tail : str) :
  starts_line pre = true ->
  forallb isspace ws = true -> isspace c = false ->
  forallb dot body = true -> line_end tail = true ->
  exists st,
    match_at title_line_re (prev_after None pre)
      (title_marker ++ ws ++ c :: body ++ tail) = Some st
    /\ rest st = tail.
Proof.
  intros Hs Hws Hc Hd He. eexists. split.
  - unfold match_at, title_line_re. fold title_marker.
    rewrite rmatch_cat, rmatch_bol. unfold at_bol. cbn [prev].
    fold (starts_line pre). rewrite Hs, rmatch_cat, rmatch_lit. cbn [rest].
    rewrite strip_prefix_app, rmatch_cat. cbn [rmatch rest prev grp].
    apply star_loop_longest; [assumption|assumption|].
    apply (lazy_line dot _ c body tail); trivial.
    now apply not_space_dot.
  - reflexivity.
Qed.

(** X4: when the first [TITLE:] of the response stands at the start of a
    line and is followed by whitespace, which may run over line ends, and then
    by text, the title is that text up to the end of its line, trimmed; and
    when no second [TITLE:] follows, the content left for the hashtag step is
    the response without the marker, the whitespace and that line,
    trimmed. *)
Theorem title_line_captured (now : datetime) (pre ws : str) (c : char)
  (body tail : str) :
  find title_marker (pre ++ title_marker ++ ws ++ c :: body ++ tail)
    = Some (length pre) ->
  starts_line pre = true ->
  forallb isspace ws = true -> isspace c = false ->
  forallb dot body = true -> line_end tail = true ->
  fst (fst (parse_article_response now
              (pre ++ title_marker ++ ws ++ c :: body ++ tail)))
    = strip (c :: body)
  /\ strip (c :: body) <> []
  /\ (find title_marker tail = None ->
      content_after_title (pre ++ title_marker ++ ws ++ c :: body ++ tail)
      = strip (pre ++ tail)).
Proof.
  intros F Hs Hws Hc Hd He.
  assert (Before : forall r a b, pre = a ++ b -> b <> [] -> forall pv,
            match_at (Cat Bol (Cat (lit title_marker) r)) pv
              (b ++ title_marker ++ ws ++ c :: body ++ tail) = None).
  { intros r a b E Hb pv. apply match_at_bol_lit_none.
    exact (find_from_first _ _ _ 0 F a b E Hb). }
  assert (S : search title_re (pre ++ title_marker ++ ws ++ c :: body ++ tail)
              = Some (Match (length pre) tail (Some (c :: body)))).
  { unfold search. rewrite search_from_skip by apply Before.
    destruct (match_title pre ws c body tail Hs Hws Hc Hd He)
      as (st & M & R & G).
    now rewrite (search_from_here _ _ _ _ _ M), R, G. }
  assert (N : is_empty (strip (c :: body)) = false).
  { apply (strip_not_blank _ c); [now left|assumption]. }
  split; [|split].
  - rewrite parse_title, S. unfold group1. cbn [m_group1]. now rewrite N.
  - intros E. now rewrite E in N.
  - intros Ft. unfold content_after_title. rewrite S. f_equal.
    unfold sub. rewrite sub_from_copy by apply Before. f_equal.
    destruct (match_title_line pre ws c body tail Hs Hws Hc Hd He)
      as (st & M & R).
    replace (title_marker ++ ws ++ c :: body ++ tail)
      with ((title_marker ++ ws ++ c :: body) ++ tail) in *
      by (rewrite <- !app_assoc; reflexivity).
    assert (Ne : title_marker ++ ws ++ c :: body <> []).
    { intros X. apply (f_equal (@length _)) in X.
      rewrite !length_app in X. simpl in X. lia. }
    rewrite (sub_from_match title_line_re [] _ tail st _ Ne M R).
    cbn [app]. apply sub_from_no_match.
    intros a b E pv. apply match_at_bol_lit_none.
    exact (find_from_none _ _ 0 Ft a b E).
Qed.

Lemma title_line_captured_witness :
  fst (fst (parse_article_response sample_now
              (str_of "Intro" ++ [nl] ++ title_marker ++ [nl; nl]
               ++ ch "F" :: str_of "oo " ++ [nl] ++ str_of "Body")))
    = strip (ch "F" :: str_of "oo ")
  /\ strip (ch "F" :: str_of "oo ") <> []
  /\ (find title_marker ([nl] ++ str_of "Body") = None ->
      content_after_title
        (str_of "Intro" ++ [nl] ++ title_marker ++ [nl; nl]
         ++ ch "F" :: str_of "oo " ++ [nl] ++ str_of "Body")
      = strip ((str_of "Intro" ++ [nl]) ++ [nl] ++ str_of "Body")).
Proof.
  apply (title_line_captured sample_now (str_of "Intro" ++ [nl]) [nl; nl]
           (ch "F") (str_of "oo ") ([nl] ++ str_of "Body")); reflexivity.
Defined.

(** X5: every hashtag returned is a word: it is not empty and has no
    whitespace in it. *)
Theorem hashtags_are_tokens (now : datetime) (response : str) :
  Forall token (snd (parse_article_response now response)).
Proof.
  rewrite parse_hashtags. destruct (search hashtags_re response).
  - rewrite tags_of_split. apply (split_from_tokens _ []). reflexivity.
  - constructor.
Qed.

(** X6: when the title pattern or the hashtag pattern matches, the body
    comes back trimmed: stripping it again changes nothing. *)
Theorem body_trimmed_after_removal (now : datetime) (response : str) :
  search title_re response <> None \/ search hashtags_re response <> None ->
  strip (snd (fst (parse_article_response now response)))
  = snd (fst (parse_article_response now response)).
Proof.
  intros H. rewrite parse_content. unfold content_after_title.
  destruct (search hashtags_re response).
  - apply strip_idempotent.
  - destruct (search title_re response).
    + apply strip_idempotent.
    + destruct H as [H | H]; now contradiction H.
Qed.

Lemma body_trimmed_after_removal_witness :
  strip (snd (fst (parse_article_response sample_now
                     (str_of "TITLE: Foo" ++ [nl] ++ str_of " text "))))
  = snd (fst (parse_article_response sample_now
                (str_of "TITLE: Foo" ++ [nl] ++ str_of " text "))).
Proof.
  apply (body_trimmed_after_removal sample_now). left. discriminate.
Defined.




End MoreParse.

(** ** sanitize_filename *)

Section MoreSanitize.

Lemma collapse_filename_chars (s : str) :
  forallb (fun c => negb (invalid_char c)) s = true ->
  forall b, forallb filename_char (collapse b s) = true.
Proof.
  induction s as [|c s IH]; intros H b; [reflexivity|].
  cbn [forallb] in H. apply andb_prop in H. destruct H as [Hc Hs].
  cbn [collapse]. destruct (isspace c) eqn:Sc.
  - destruct b; cbn [forallb]; rewrite (IH Hs true); reflexivity.
  - cbn [forallb]. unfold filename_char at 1. rewrite Hc, Sc.
    now rewrite (IH Hs false).
Qed.

Lemma filter_valid (s : str) :
  forallb (fun c => negb (invalid_char c))
    (filter (fun c => negb (invalid_char c)) s) = true.
Proof.
  apply forallb_forall. intros c Hc. now apply filter_In in Hc.
Qed.

Lemma forallb_firstn {A} (f : A -> bool) (n : nat) (l : list A) :
  forallb f l = true -> forallb f (firstn n l) = true.
Proof.
  revert n. induction l as [|a l IH]; intros n H; [now destruct n|].
  cbn [forallb] in H. apply andb_prop in H. destruct H as [Ha Hl].
  destruct n as [|n]; [reflexivity|]. cbn [firstn forallb].
  now rewrite Ha, IH.
Qed.

(** A text of filename characters passes the two substitutions unchanged. *)
Lemma cleaned_filename_chars (s : str) :
  forallb filename_char s = true -> cleaned s = s.
Proof.
  intros H. rewrite cleaned_direct.
  assert (F : filter (fun c => negb (invalid_char c)) s = s).
  { apply forallb_filter_id. apply forallb_forall. intros c Hc.
    rewrite forallb_forall in H. specialize (H c Hc).
    unfold filename_char in H. now apply andb_prop in H. }
  rewrite F. clear F. induction s as [|c s IH]; [reflexivity|].
  cbn [forallb] in H. apply andb_prop in H. destruct H as [Hc Hs].
  unfold filename_char in Hc. apply andb_prop in Hc. destruct Hc as [_ Sc].
  apply negb_true_iff in Sc. cbn [collapse]. rewrite Sc. now rewrite IH.
Qed.

Lemma sanitize_filename_chars (title : str) :
  forallb filename_char (sanitize_filename title) = true.
Proof.
  unfold sanitize_filename. fold (cleaned title).
  assert (C : forallb filename_char (cleaned title) = true).
  { rewrite cleaned_direct. apply collapse_filename_chars, filter_valid. }
  destruct (100 <? length (cleaned title))%nat; [|exact C].
  now apply forallb_firstn.
Qed.

(** X9: the name returned by [sanitize_filename] has none of the characters
    the first substitution deletes and no whitespace: every whitespace run of
    the title has become an underscore. *)
Theorem sanitized_chars (title : str) :
  forallb filename_char (sanitize_filename title) = true
  /\ forallb (fun c => negb (invalid_char c)) (sanitize_filename title) = true
  /\ forallb (fun c => negb (isspace c)) (sanitize_filename title) = true.
Proof.
  pose proof (sanitize_filename_chars title) as C.
  split; [exact C|]. rewrite forallb_forall in C.
  split; apply forallb_forall; intros c Hc; specialize (C c Hc);
    unfold filename_char in C; apply andb_prop in C; tauto.
Qed.

(** X10: sanitising a sanitised name changes nothing. *)
Theorem sanitize_idempotent (title : str) :
  sanitize_filename (sanitize_filename title) = sanitize_filename title.
Proof.
  pose proof (sanitize_filename_chars title) as C.
  assert (L : length (sanitize_filename title) <= 100).
  { unfold sanitize_filename. fold (cleaned title).
    destruct (Nat.ltb_spec 100 (length (cleaned title))); [|lia].
    rewrite firstn_length_le; lia. }
  unfold sanitize_filename at 1. fold (cleaned (sanitize_filename title)).
  rewrite (cleaned_filename_chars _ C).
  destruct (Nat.ltb_spec 100 (length (sanitize_filename title))); [lia|].
  reflexivity.
Qed.

Lemma collapse_nil (s : str) : collapse false s = [] -> s = [].
Proof.
  destruct s as [|c s]; [reflexivity|]. cbn [collapse].
  destruct (isspace c); discriminate.
Qed.

(** X11: the name is empty exactly when every character of the title is one
    of the deleted characters (the empty title included); whitespace alone
    already gives an underscore. *)
Theorem sanitize_empty_iff (title : str) :
  sanitize_filename title = [] <-> forallb invalid_char title = true.
Proof.
  assert (C : cleaned title = [] <-> forallb invalid_char title = true).
  { rewrite cleaned_direct. split.
    - intros H. apply collapse_nil in H. apply forallb_forall. intros c Hc.
      destruct (invalid_char c) eqn:I; [reflexivity|exfalso].
      assert (In c (filter (fun c => negb (invalid_char c)) title))
        by (apply filter_In; now rewrite I).
      rewrite H in *. contradiction.
    - intros H.
      assert (F : filter (fun c => negb (invalid_char c)) title = []).
      { induction title as [|c t IH]; [reflexivity|].
        cbn [forallb] in H. apply andb_prop in H. destruct H as [Hc Ht].
        cbn [filter]. rewrite Hc. cbn [negb]. auto. }
      now rewrite F. }
  unfold sanitize_filename. fold (cleaned title).
  destruct (Nat.ltb_spec 100 (length (cleaned title))) as [L|L]; [|exact C].
  rewrite <- C. destruct (cleaned title) as [|c s]; [simpl in L; lia|].
  split; discriminate.
Qed.

Lemma digit_filename_char (n : N) : filename_char (digit n) = true.
Proof.
  assert (B : (48 <= digit n <= 57)%N).
  { unfold digit. assert (H : (n mod 10 < 10)%N) by (apply N.mod_lt; lia).
    revert H. generalize (n mod 10)%N. intros m H. lia. }
  unfold filename_char, invalid_char, isspace.
  repeat match goal with
         | |- context [(?a =? ?b)%N] =>
             destruct (N.eqb_spec a b); [lia|]
         | |- context [(?a <=? ?b)%N] =>
             destruct (N.leb_spec a b); try lia
         end; reflexivity.
Qed.

Lemma zpad_filename_chars (w : nat) :
  forall n, forallb filename_char (zpad w n) = true.
Proof.
  induction w as [|w IH]; intros n; [reflexivity|].
  cbn [zpad]. rewrite forallb_app, IH. cbn [forallb].
  now rewrite digit_filename_char.
Qed.

(** X8: the default title names its file as it is: [sanitize_filename]
    returns [Article_] and the clock reading unchanged, whatever the clock
    says. *)
Theorem default_title_is_file_name (now : datetime) :
  sanitize_filename (str_of "Article_" ++ strftime now)
  = str_of "Article_" ++ strftime now.
Proof.
  assert (C : forallb filename_char (str_of "Article_" ++ strftime now) = true).
  { unfold strftime. rewrite !forallb_app, !zpad_filename_chars. reflexivity. }
  unfold sanitize_filename.
  fold (cleaned (str_of "Article_" ++ strftime now)).
  rewrite (cleaned_filename_chars _ C).
  rewrite length_app, strftime_length. reflexivity.
Qed.

End MoreSanitize.

(** ** generate_article, download_transcript and main *)

Section MoreMain.

Import Script.

Variable World : Type.
Variable sv : services World.

(** X12: the response is the texts of the chunks in the order of their
    arrival, one after the other; a chunk without text adds nothing. *)
Theorem chunks_concatenated (chunks : list (option str)) :
  concat_chunks chunks = concat (map chunk_text chunks).
Proof.
  unfold concat_chunks.
  assert (G : forall acc,
             fold_left (fun full_response c =>
                          match c with
                          | Some t => full_response ++ t
                          | None => full_response
                          end) chunks acc
             = acc ++ concat (map chunk_text chunks)).
  { induction chunks as [|c cs IH]; intros acc; cbn [fold_left map concat].
    - now rewrite app_nil_r.
    - rewrite IH. destruct c; cbn [chunk_text]; [now rewrite app_assoc|].
      reflexivity. }
  exact (G []).
Qed.





(** X15: the generation request of a run carries a credential that is not
    empty, the options of the command line, and as transcripts the snippets
    of each download that came to its end (the fetch succeeded and the sleep
    after it, if there was one, did not raise) joined by single spaces, in
    the order of the downloads; there is at least one. *)
Theorem request_carries_fetched_transcripts (c : cmdline) (w : World)
  (args : namespace) (key : str) (ts : list str) (ctx size : str)
  (research : bool) (chunks : option (list (option str))) :
  parse_args c = Some args ->
  In (GenerateRequest key ts ctx size research chunks) (snd (run sv c w)) ->
  ts = map (join (str_of " ")) (obtained_snippets (snd (run sv c w)))
  /\ ts <> [] /\ key <> []
  /\ ctx = arg_context args /\ size = arg_output_size args
  /\ research = arg_enable_research args.
Proof.
  intros P H. destruct (run_phases World sv c w args P)
    as (evs1 & after & E & D & _ & _ & _ & _ & _ & _ & A).
  rewrite E, (after_downloads_obtained args _ _ _ A evs1).
  rewrite E in H. apply in_app_or in H. destruct H as [H | H].
  - rewrite forallb_forall in D. specialize (D _ H). discriminate.
  - unfold request_of in A.
    destruct A as [(-> & _) | [(T & k & K & -> & _) | [(T & k & Kn & -> & _)
      | (T & k & cs & now & ti & co & ha & ok & Kn & PA & -> & _)]]];
      cbn in H; intuition (try discriminate);
      match goal with X : _ = GenerateRequest _ _ _ _ _ _ |- _ =>
        injection X as <- <- <- <- <- <- end; auto 10.
Qed.

(** X16: a run is the download loop followed by what comes after it: after
    the loop nothing is fetched and nothing sleeps; at most one generation
    request is made, and only when a fetch succeeded; at most one article
    is written, and only after the generation service answered. *)
Theorem phases_in_order (c : cmdline) (w : World) :
  exists downloads after,
    snd (run sv c w) = downloads ++ after
    /\ forallb is_download downloads = true
    /\ existsb is_download after = false
    /\ length (filter is_generate after) <= 1
    /\ length (filter is_write after) <= 1
    /\ (existsb is_generate after = true ->
        existsb fetch_succeeded downloads = true)
    /\ (existsb is_write after = true ->
        existsb generation_answered after = true).
Proof.
  destruct (parse_args c) as [args|] eqn:P.
  - destruct (run_phases World sv c w args P)
      as (evs1 & after & E & D & _ & _ & _ & _ & _ & _ & A).
    destruct (after_downloads_facts _ _ _ _ A)
      as (ND & _ & _ & _ & G1 & W1 & WG & GT & _).
    exists evs1, after. repeat (split; [assumption|]). split; [|exact WG].
    intros G. apply snippets_fetch_succeeded. intros S0.
    apply (GT G). pose proof (obtained_le_successful evs1) as OS.
    rewrite S0 in OS. now destruct (obtained_snippets evs1).
  - exists [], []. rewrite (run_rejected World sv c w P). cbn.
    repeat split; auto; discriminate.
Qed.


(** X23: a run makes at most two transcript fetches for each usable URL,
    and at most one of the two succeeds. *)
Theorem fetch_budget (c : cmdline) (w : World) (args : namespace) :
  parse_args c = Some args ->
  length (filter is_fetch (snd (run sv c w)))
    <= 2 * length (usable_urls (arg_urls args))
  /\ length (successful_snippets (snd (run sv c w)))
     <= length (usable_urls (arg_urls args)).
Proof.
  intros P. destruct (run_phases World sv c w args P)
    as (evs1 & after & E & D & NF & _ & _ & NU & _ & _ & A).
  destruct (after_downloads_facts _ _ _ _ A) as (_ & S0 & _ & F0 & _).
  rewrite E, filter_app, successful_snippets_app, F0, S0, !app_nil_r.
  split; assumption.
Qed.

Lemma parse_title_not_empty (now : datetime) (response : str) :
  fst (fst (parse_article_response now response)) <> [].
Proof.
  rewrite parse_title. destruct (search title_re response) as [m|].
  - destruct (strip (group1 m)); cbn [is_empty]; discriminate.
  - discriminate.
Qed.

(** X18: the article is written under [articles/] to the sanitised title
    followed by [.md], for a title that is not empty, and the text written
    starts with [# ], the title itself and an empty line. *)
Theorem written_article_shape (c : cmdline) (w : World) (path content : str)
  (ok : bool) :
  In (WriteArticle path content ok) (snd (run sv c w)) ->
  exists title more,
    title <> []
    /\ path = str_of "articles/" ++ sanitize_filename title ++ str_of ".md"
    /\ content = str_of "# " ++ title ++ [nl; nl] ++ more.
Proof.
  intros H. destruct (parse_args c) as [args|] eqn:P.
  - destruct (run_phases World sv c w args P)
      as (evs1 & after & E & D & _ & _ & _ & _ & _ & _ & A).
    rewrite E in H. apply in_app_or in H. destruct H as [H | H].
    + rewrite forallb_forall in D. specialize (D _ H). discriminate.
    + unfold request_of in A.
      destruct A as [(-> & _) | [(T & k & K & -> & _) | [(T & k & Kn & -> & _)
        | (T & k & cs & now & ti & co & ha & ok' & Kn & PA & -> & _)]]];
        cbn in H; intuition (try discriminate).
      match goal with X : _ = WriteArticle _ _ _ |- _ =>
        injection X as <- <- <- end.
      exists ti. eexists. split; [|split; [reflexivity|]].
      * pose proof (parse_title_not_empty now (concat_chunks cs)) as N.
        now rewrite PA in N.
      * unfold article_text. rewrite <- !app_assoc. reflexivity.
  - rewrite (run_rejected World sv c w P) in H. destruct H.
Qed.

End MoreMain.

Section MoreMainWitnesses.

Import Script.



Lemma fetch_budget_witness :
  let c := CmdLine (Some (str_of "dQw4w9WgXcQ"))
             [str_of "  "; str_of "not a video"] []
             (str_of "SHORT") false 15 in
  let trace := snd (run (sample_services None None true) c tt) in
  length (filter is_fetch trace) <= 2 * 2
  /\ length (successful_snippets trace) <= 2.
Proof.
  exact (fetch_budget unit (sample_services None None true)
           (CmdLine (Some (str_of "dQw4w9WgXcQ"))
              [str_of "  "; str_of "not a video"] []
              (str_of "SHORT") false 15) tt
           (Namespace
              [str_of "dQw4w9WgXcQ"; str_of "  "; str_of "not a video"] []
              (str_of "SHORT") false 15) eq_refl).
Defined.

Lemma request_carries_fetched_transcripts_witness :
  let c := CmdLine (Some (str_of "dQw4w9WgXcQ"))
             [str_of "https://youtu.be/dQw4w9WgXcQ"] []
             (str_of "MEDIUM") true 10000000000 in
  let sv := overflow_services (Some (str_of "key")) None true in
  [str_of "hello world"]
    = map (join (str_of " ")) (obtained_snippets (snd (run sv c tt)))
  /\ [str_of "hello world"] <> [] /\ str_of "key" <> []
  /\ ([] : str) = [] /\ str_of "MEDIUM" = str_of "MEDIUM" /\ true = true.
Proof.
  apply (request_carries_fetched_transcripts unit
           (overflow_services (Some (str_of "key")) None true)
           (CmdLine (Some (str_of "dQw4w9WgXcQ"))
              [str_of "https://youtu.be/dQw4w9WgXcQ"] []
              (str_of "MEDIUM") true 10000000000) tt
           (Namespace
              [str_of "dQw4w9WgXcQ"; str_of "https://youtu.be/dQw4w9WgXcQ"]
              [] (str_of "MEDIUM") true 10000000000)
           (str_of "key") [str_of "hello world"] [] (str_of "MEDIUM") true
           None eq_refl).
  right. right. right. right. left. reflexivity.
Defined.

Lemma written_article_shape_witness :
  exists title more,
    title <> []
    /\ str_of "articles/A.md"
       = str_of "articles/" ++ sanitize_filename title ++ str_of ".md"
    /\ str_of "# A?" ++ [nl; nl] ++ str_of "text"
       = str_of "# " ++ title ++ [nl; nl] ++ more.
Proof.
  apply (written_article_shape unit
           (sample_services (Some (str_of "key"))
              (Some [Some (str_of "TITLE: A?"); Some (nl :: str_of "text")])
              true)
           (sample_cmdline (Some (str_of "dQw4w9WgXcQ"))) tt
           (str_of "articles/A.md")
           (str_of "# A?" ++ [nl; nl] ++ str_of "text") true).
  right. right. right. left. reflexivity.
Defined.

End MoreMainWitnesses.

(** ** build_prompt *)

Section MorePrompt.

(** X19: a context that is empty or only whitespace gives the same prompts as
    no context at all; any other context is put, as it is given, into a
    context block that opens the user prompt, and leaves the system
    instruction alone. *)
Theorem context_block_only_when_not_blank (transcripts : list str)
  (context_message output_size : str) (enable_research : bool) :
  (forallb isspace context_message = true ->
   build_prompt transcripts context_message output_size enable_research
   = build_prompt transcripts [] output_size enable_research)
  /\ (forallb isspace context_message = false ->
      snd (build_prompt transcripts context_message output_size
             enable_research)
      = context_open ++ context_message ++ context_close
        ++ snd (build_prompt transcripts [] output_size enable_research)
      /\ fst (build_prompt transcripts context_message output_size
                enable_research)
         = fst (build_prompt transcripts [] output_size enable_research)).
Proof.
  unfold build_prompt, context_block_of.
  rewrite <- negb_orb, blank_test. cbn [fst snd is_empty negb orb].
  split; intros ->; cbn [negb app]; [reflexivity|].
  split; [|reflexivity]. now rewrite <- !app_assoc.
Qed.

Lemma context_block_only_when_not_blank_witness :
  build_prompt [str_of "t"] (str_of "  ") (str_of "LONG") true
    = build_prompt [str_of "t"] [] (str_of "LONG") true
  /\ snd (build_prompt [str_of "t"] (str_of " AI ") (str_of "LONG") true)
     = context_open ++ str_of " AI " ++ context_close
       ++ snd (build_prompt [str_of "t"] [] (str_of "LONG") true).
Proof.
  split.
  - apply (proj1 (context_block_only_when_not_blank [str_of "t"]
                    (str_of "  ") (str_of "LONG") true)). reflexivity.
  - apply (proj2 (context_block_only_when_not_blank [str_of "t"]
                    (str_of " AI ") (str_of "LONG") true)). reflexivity.
Defined.

Lemma str_eqb_sym (a b : str) : str_eqb a b = str_eqb b a.
Proof.
  revert b. induction a as [|x a IH]; intros [|y b]; cbn; try reflexivity.
  now rewrite N.eqb_sym, IH.
Qed.

(** X20: an output size that is none of [SHORT], [MEDIUM], [LONG] gives the
    prompts of [MEDIUM]. *)
Theorem unknown_size_is_medium (transcripts : list str)
  (context_message output_size : str) (enable_research : bool) :
  existsb (str_eqb output_size) Script.size_choices = false ->
  build_prompt transcripts context_message output_size enable_research
  = build_prompt transcripts context_message (str_of "MEDIUM")
      enable_research.
Proof.
  unfold Script.size_choices. cbn [existsb]. intros H.
  apply orb_false_elim in H. destruct H as [H1 H].
  apply orb_false_elim in H. destruct H as [H2 H].
  apply orb_false_elim in H. destruct H as [H3 _].
  unfold build_prompt, size_guidance. cbn [dict_get].
  rewrite (str_eqb_sym (str_of "SHORT")), H1.
  rewrite (str_eqb_sym (str_of "MEDIUM") output_size), H2.
  rewrite (str_eqb_sym (str_of "LONG")), H3. reflexivity.
Qed.

Lemma unknown_size_is_medium_witness :
  build_prompt [str_of "t"] [] (str_of "short") true
  = build_prompt [str_of "t"] [] (str_of "MEDIUM") true.
Proof.
  apply (unknown_size_is_medium [str_of "t"] [] (str_of "short") true).
  reflexivity.
Defined.

(** X21: the system instruction is the fixed text around one guidance
    sentence, that of the output size (that of [MEDIUM] for an unknown
    size); it contains this sentence and neither of the other two, and does
    not depend on the transcripts or the context. *)
Theorem one_guidance_sentence (transcripts : list str)
  (context_message output_size : str) (enable_research : bool) :
  let guidance := dict_get size_guidance output_size guidance_medium in
  let system_instruction :=
    fst (build_prompt transcripts context_message output_size enable_research) in
  system_instruction = system_head ++ guidance ++ system_tail
  /\ contains guidance system_instruction = true
  /\ (forall other,
        In other [guidance_short; guidance_medium; guidance_long] ->
        other <> guidance -> contains other system_instruction = false).
Proof.
  unfold build_prompt, size_guidance. cbn [fst dict_get].
  destruct (str_eqb (str_of "SHORT") output_size);
    [|destruct (str_eqb (str_of "MEDIUM") output_size);
      [|destruct (str_eqb (str_of "LONG") output_size)]];
    (split; [reflexivity|]); (split; [vm_compute; reflexivity|]);
    intros other [<- | [<- | [<- | []]]] N;
    try (now contradiction N); vm_compute; reflexivity.
Qed.

Lemma one_guidance_sentence_witness :
  contains guidance_long
    (fst (build_prompt [str_of "t"] [] (str_of "SHORT") true)) = false.
Proof.
  apply (proj2 (proj2 (one_guidance_sentence [str_of "t"] [] (str_of "SHORT")
                         true))).
  - right. right. left. reflexivity.
  - discriminate.
Defined.

Lemma transcript_loop_sections (transcripts : list str) :
  forall i transcript_content,
    transcript_loop i transcripts transcript_content
    = transcript_content
      ++ concat (map (fun it => transcript_section (fst it) (snd it))
                   (numbered i transcripts)).
Proof.
  unfold numbered.
  induction transcripts as [|t ts IH]; intros i acc;
    cbn [transcript_loop length seq combine map concat fst snd].
  - now rewrite app_nil_r.
  - now rewrite IH, <- app_assoc.
Qed.

Lemma find_from_app (needle before more : str) :
  forall i, find_from needle i (before ++ needle ++ more) <> None.
Proof.
  induction before as [|c before IH]; intros i.
  - cbn [app]. pose proof (strip_prefix_app needle more) as P.
    destruct (needle ++ more); cbn [find_from]; rewrite P; discriminate.
  - cbn [app find_from].
    destruct (strip_prefix needle (c :: before ++ needle ++ more));
      [discriminate|apply IH].
Qed.

Lemma contains_app (needle before more : str) :
  contains needle (before ++ needle ++ more) = true.
Proof.
  unfold contains, find.
  pose proof (find_from_app needle before more 0) as H.
  now destruct (find_from needle 0 (before ++ needle ++ more)).
Qed.

Lemma section_in_sections (t : str) (transcripts : list str) :
  In t transcripts ->
  forall i, exists before more,
    concat (map (fun it => transcript_section (fst it) (snd it))
              (numbered i transcripts))
    = before ++ t ++ more.
Proof.
  unfold numbered.
  induction transcripts as [|u ts IH]; intros H i; [destruct H|].
  cbn [length seq combine map concat fst snd].
  destruct H as [-> | H].
  - exists (transcript_open ++ str_of_nat i ++ transcript_close).
    eexists. unfold transcript_section. rewrite <- !app_assoc. reflexivity.
  - destruct (IH H (S i)) as (before & more & E). rewrite E.
    exists (transcript_section i u ++ before), more.
    now rewrite <- !app_assoc.
Qed.

(** X22: the user prompt is the context block, the request, one section per
    transcript and the reminder; the sections come in the order of the
    transcripts and are numbered from 1, and every transcript stands in the
    user prompt as it is. *)
Theorem transcripts_numbered_in_order (transcripts : list str)
  (context_message output_size : str) (enable_research : bool) :
  snd (build_prompt transcripts context_message output_size enable_research)
  = context_block_of context_message ++ user_please
    ++ concat (map (fun it => transcript_section (fst it) (snd it))
                 (numbered 1 transcripts))
    ++ user_remember
  /\ (forall t, In t transcripts ->
      contains t (snd (build_prompt transcripts context_message output_size
                         enable_research)) = true).
Proof.
  assert (E : snd (build_prompt transcripts context_message output_size
                     enable_research)
              = context_block_of context_message ++ user_please
                ++ concat (map (fun it => transcript_section (fst it) (snd it))
                             (numbered 1 transcripts))
                ++ user_remember).
  { unfold build_prompt. cbn [snd].
    now rewrite transcript_loop_sections. }
  split; [exact E|]. intros t H. rewrite E.
  destruct (section_in_sections t transcripts H 1) as (before & more & ->).
  replace (context_block_of context_message ++ user_please
           ++ (before ++ t ++ more) ++ user_remember)
    with ((context_block_of context_message ++ user_please ++ before)
          ++ t ++ (more ++ user_remember))
    by (rewrite <- !app_assoc; reflexivity).
  apply contains_app.
Qed.

Lemma transcripts_numbered_in_order_witness :
  contains (str_of "second talk")
    (snd (build_prompt [str_of "first talk"; str_of "second talk"] []
            (str_of "SHORT") true)) = true.
Proof.
  apply (proj2 (transcripts_numbered_in_order
                  [str_of "first talk"; str_of "second talk"] []
                  (str_of "SHORT") true)).
  right. left. reflexivity.
Defined.

End MorePrompt.
